(** * The client game-state machine of the Jamaican racing game

    A shallow embedding of the React component [JamaicanRacingGame] of
    [frontend/app/index.tsx]: its hooks as the fields of one record, its
    handlers and effects as functions on that record, the backend as an
    oracle, and the rendered controls as a boolean function of the state.

    Numbers.  [score] and [distance] are JavaScript numbers that only ever
    hold integers (they start at 0 and move by +1, +10 and +50), so they
    are modelled in [Z]; [Math.floor(distance / 10)] is [Z.div].

    Scheduling.  JavaScript runs one callback to completion at a time and
    React commits the writes of a callback together, before the next event
    is delivered, so every handler reads the committed state and an effect
    runs on the state its handler committed.  A handler that awaits the
    backend is run here together with the backend's replies: no other event
    comes between a request and its answer.

    Time.  The only time kept is the deadline of each pending jump timer;
    when a timer fires is the choice of the event loop. *)

From Stdlib Require Import ZArith List String Bool Lia.
Import ListNotations.
Local Open Scope string_scope.
Local Open Scope list_scope.
Local Open Scope Z_scope.

(** ** Game types (index.tsx, lines 25-54) *)

Record Player := mkPlayer {
  p_id : string;
  p_name : string;
  p_high_score : Z }.

Record GameSession := mkGameSession {
  gs_id : string;
  gs_player_id : string;
  gs_track_name : string;
  gs_score : Z;
  gs_distance : Z;
  gs_character_type : string }.

Record Track := mkTrack {
  t_id : string;
  t_name : string;
  t_display_name : string;
  t_location_type : string;
  t_character_type : string;
  t_difficulty : string;
  t_background_theme : string }.

Record JamaicanDialogue := mkDialogue {
  d_dialogue : string;
  d_translation : string }.

(** The four values of the [gameState] hook. *)
Inductive Mode := menu | playing | paused | gameOver.

Definition mode_eqb (a b : Mode) : bool :=
  match a, b with
  | menu, menu | playing, playing | paused, paused | gameOver, gameOver => true
  | _, _ => false
  end.

(** ** The backend collaborator

    Every [fetch] of the component is one [Request]; the requests sent so
    far are kept, most recent first, in the field [sent] of the state. *)

Inductive Request :=
| CreatePlayer (name : string)
| ListTracks
| CreateSession (player_id track_name character_type : string)
| UpdateSession (id : string) (final_score final_distance time_played : Z)
                (completed : bool)
| GetDialogue (context track_name player_name : string).

(** The backend answers a request from the history of requests (which ends
    with the request being answered, at its head).  [None] and [false] stand
    for a [fetch] or a [json()] that throws. *)
Record Backend := mkBackend {
  createPlayer : list Request -> option Player;
  listTracks : list Request -> option (list Track);
  createSession : list Request -> option GameSession;
  updateSession : list Request -> bool;
  getDialogue : list Request -> option JamaicanDialogue }.

(** ** The state of the component (index.tsx, lines 59-72)

    The eleven hooks, the pending jump timers of the JavaScript runtime
    (the deadline of each [setTimeout] of [jumpCharacter], oldest first) and
    the log of requests. *)
Record Game := mkGame {
  gameState : Mode;
  currentPlayer : option Player;
  currentTrack : option Track;
  availableTracks : list Track;
  gameSession : option GameSession;
  score : Z;
  distance : Z;
  dialogue : option JamaicanDialogue;
  isJumping : bool;
  isRunning : bool;
  isInitialized : bool;
  jumpTimers : list Z;
  sent : list Request }.

(** The state at mount: the initial value of every hook. *)
Definition mount : Game :=
  mkGame menu None None [] None 0 0 None false false false [] [].

(** *** The setters of the hooks *)

Definition setGameState (v : Mode) (g : Game) : Game :=
  mkGame v (currentPlayer g) (currentTrack g) (availableTracks g)
    (gameSession g) (score g) (distance g) (dialogue g) (isJumping g)
    (isRunning g) (isInitialized g) (jumpTimers g) (sent g).

Definition setCurrentPlayer (v : option Player) (g : Game) : Game :=
  mkGame (gameState g) v (currentTrack g) (availableTracks g)
    (gameSession g) (score g) (distance g) (dialogue g) (isJumping g)
    (isRunning g) (isInitialized g) (jumpTimers g) (sent g).

Definition setCurrentTrack (v : option Track) (g : Game) : Game :=
  mkGame (gameState g) (currentPlayer g) v (availableTracks g)
    (gameSession g) (score g) (distance g) (dialogue g) (isJumping g)
    (isRunning g) (isInitialized g) (jumpTimers g) (sent g).

Definition setAvailableTracks (v : list Track) (g : Game) : Game :=
  mkGame (gameState g) (currentPlayer g) (currentTrack g) v
    (gameSession g) (score g) (distance g) (dialogue g) (isJumping g)
    (isRunning g) (isInitialized g) (jumpTimers g) (sent g).

Definition setGameSession (v : option GameSession) (g : Game) : Game :=
  mkGame (gameState g) (currentPlayer g) (currentTrack g) (availableTracks g)
    v (score g) (distance g) (dialogue g) (isJumping g)
    (isRunning g) (isInitialized g) (jumpTimers g) (sent g).

(** [setScore] and [setDistance] take an updater, as in
    [setScore(prev => prev + 50)]; [setScore(0)] is the constant updater. *)
Definition setScore (f : Z -> Z) (g : Game) : Game :=
  mkGame (gameState g) (currentPlayer g) (currentTrack g) (availableTracks g)
    (gameSession g) (f (score g)) (distance g) (dialogue g) (isJumping g)
    (isRunning g) (isInitialized g) (jumpTimers g) (sent g).

Definition setDistance (f : Z -> Z) (g : Game) : Game :=
  mkGame (gameState g) (currentPlayer g) (currentTrack g) (availableTracks g)
    (gameSession g) (score g) (f (distance g)) (dialogue g) (isJumping g)
    (isRunning g) (isInitialized g) (jumpTimers g) (sent g).

Definition setDialogue (v : option JamaicanDialogue) (g : Game) : Game :=
  mkGame (gameState g) (currentPlayer g) (currentTrack g) (availableTracks g)
    (gameSession g) (score g) (distance g) v (isJumping g)
    (isRunning g) (isInitialized g) (jumpTimers g) (sent g).

Definition setIsJumping (v : bool) (g : Game) : Game :=
  mkGame (gameState g) (currentPlayer g) (currentTrack g) (availableTracks g)
    (gameSession g) (score g) (distance g) (dialogue g) v
    (isRunning g) (isInitialized g) (jumpTimers g) (sent g).

Definition setIsRunning (v : bool) (g : Game) : Game :=
  mkGame (gameState g) (currentPlayer g) (currentTrack g) (availableTracks g)
    (gameSession g) (score g) (distance g) (dialogue g) (isJumping g)
    v (isInitialized g) (jumpTimers g) (sent g).

Definition setIsInitialized (v : bool) (g : Game) : Game :=
  mkGame (gameState g) (currentPlayer g) (currentTrack g) (availableTracks g)
    (gameSession g) (score g) (distance g) (dialogue g) (isJumping g)
    (isRunning g) v (jumpTimers g) (sent g).

(** The runtime side: the timer queue and the network. *)
Definition setJumpTimers (v : list Z) (g : Game) : Game :=
  mkGame (gameState g) (currentPlayer g) (currentTrack g) (availableTracks g)
    (gameSession g) (score g) (distance g) (dialogue g) (isJumping g)
    (isRunning g) (isInitialized g) v (sent g).

Definition fetch (r : Request) (g : Game) : Game :=
  mkGame (gameState g) (currentPlayer g) (currentTrack g) (availableTracks g)
    (gameSession g) (score g) (distance g) (dialogue g) (isJumping g)
    (isRunning g) (isInitialized g) (jumpTimers g) (r :: sent g).

(** [setTimeout(..., ms)] called at time [now] by [jumpCharacter]. *)
Definition setTimeout (now ms : Z) (g : Game) : Game :=
  setJumpTimers (jumpTimers g ++ [now + ms]) g.

(** Statements in program order: [g |> f |> h] is [f] then [h]. *)
Notation "g |> f" := (f g) (at level 45, left associativity, only parsing).

(** JavaScript's [a || b] on an optional string: [b] when [a] is undefined
    or empty. *)
Definition js_or (a : option string) (b : string) : string :=
  match a with
  | Some EmptyString | None => b
  | Some s => s
  end.

(** ** The local fallback data (lines 83-101 and 142-155) *)

Definition generalName : string := "General Da Jamaican Boy".

Definition fallbackPlayer : Player := mkPlayer "temp" generalName 0.

Definition fallbackTrack : Track :=
  mkTrack "track_001" "jamaica_country" "Blue Mountain Trail" "country"
    "on_foot" "easy" "rural_mountains".

Definition fallbackDialogue : JamaicanDialogue :=
  mkDialogue "Ready fi run through Jamaica, General?"
    "Ready to run through Jamaica, General?".

(** ** Handlers and effects *)

Section Handlers.

Variable net : Backend.

(** The 5-second timeout of lines 79-107.  The effect depends on
    [isInitialized], so the timer that fires always closes over the current
    value of the flag. *)
Definition initTimeout (g : Game) : Game :=
  if negb (isInitialized g) then
    g |> setCurrentPlayer (Some fallbackPlayer)
      |> setAvailableTracks [fallbackTrack]
      |> setCurrentTrack (Some fallbackTrack)
      |> setIsInitialized true
  else g.

(** The [catch] branch of [initializeGame], lines 139-157. *)
Definition initializeGame_catch (g : Game) : Game :=
  g |> setDialogue (Some fallbackDialogue)
    |> setCurrentPlayer (Some fallbackPlayer)
    |> setAvailableTracks [fallbackTrack]
    |> setIsInitialized true.

(** [initializeGame], lines 109-158: three requests in a row, any failure
    jumps to the [catch] branch with the state written so far. *)
Definition initializeGame (g : Game) : Game :=
  let g1 := g |> fetch (CreatePlayer generalName) in
  match createPlayer net (sent g1) with
  | None => initializeGame_catch g1
  | Some player =>
    let g2 := g1 |> setCurrentPlayer (Some player) |> fetch ListTracks in
    match listTracks net (sent g2) with
    | None => initializeGame_catch g2
    | Some tracks =>
      let g3 := g2 |> setAvailableTracks tracks
                   |> setCurrentTrack (hd_error tracks)
                   |> fetch (GetDialogue "start"
                        (js_or (option_map t_name (hd_error tracks))
                               "jamaica_country")
                        generalName) in
      match getDialogue net (sent g3) with
      | None => initializeGame_catch g3
      | Some dialogueData =>
        g3 |> setDialogue (Some dialogueData) |> setIsInitialized true
      end
    end
  end.

(** [startGame], lines 160-190. *)
Definition startGame (g : Game) : Game :=
  match currentPlayer g, currentTrack g with
  | Some player, Some track =>
    let g1 := g |> fetch (CreateSession (p_id player) (t_name track)
                            (t_character_type track)) in
    match createSession net (sent g1) with
    | Some session =>
      g1 |> setGameSession (Some session)
         |> setScore (fun _ => 0)
         |> setDistance (fun _ => 0)
         |> setGameState playing
         |> setIsRunning true
    | None =>
      g1 |> setGameState playing |> setIsRunning true
    end
  | _, _ => g
  end.

(** [jumpCharacter], lines 192-201, called at time [now] (milliseconds). *)
Definition jumpCharacter (now : Z) (g : Game) : Game :=
  if isJumping g || negb (mode_eqb (gameState g) playing) then g
  else
    g |> setIsJumping true
      |> setScore (fun prev => prev + 50)
      |> setTimeout now 600.

(** The callback of that timer, lines 198-200: the oldest pending timer
    fires and leaves the queue. *)
Definition jumpTimerFires (g : Game) : Game :=
  match jumpTimers g with
  | [] => g
  | _ :: rest => g |> setJumpTimers rest |> setIsJumping false
  end.

(** [pauseGame] and [resumeGame], lines 203-211. *)
Definition pauseGame (g : Game) : Game :=
  g |> setGameState paused |> setIsRunning false.

Definition resumeGame (g : Game) : Game :=
  g |> setGameState playing |> setIsRunning true.

(** [endGame], lines 213-249.  [score], [distance], [gameSession],
    [currentTrack] and [currentPlayer] are read from the closure, that is
    from the state the handler was called in. *)
Definition endGame (g : Game) : Game :=
  let g1 := g |> setGameState gameOver |> setIsRunning false in
  match gameSession g with
  | None => g1
  | Some session =>
    let g2 := g1 |> fetch (UpdateSession (gs_id session) (score g)
                             (distance g) (distance g / 10) true) in
    if updateSession net (sent g2) then
      let context := if 500 <? score g then "victory" else "defeat" in
      let g3 := g2 |> fetch (GetDialogue context
                        (js_or (option_map t_name (currentTrack g))
                               "jamaica_country")
                        (js_or (option_map p_name (currentPlayer g))
                               generalName)) in
      match getDialogue net (sent g3) with
      | Some dialogueData => g3 |> setDialogue (Some dialogueData)
      | None => g3
      end
    else g2
  end.

(** [resetGame], lines 251-256. *)
Definition resetGame (g : Game) : Game :=
  g |> setGameState menu
    |> setGameSession None
    |> setScore (fun _ => 0)
    |> setDistance (fun _ => 0).

(** The callback of the scoring interval, lines 259-270.  The interval
    exists exactly while [gameState === 'playing' && isRunning] held at the
    last commit. *)
Definition intervalTick (g : Game) : Game :=
  if mode_eqb (gameState g) playing && isRunning g then
    g |> setDistance (fun prev => prev + 1)
      |> setScore (fun prev => prev + 10)
  else g.

(** The effect of lines 273-277, run after a commit that changed one of its
    dependencies [distance] and [gameState]: [prev] is the state before the
    event, [cur] the state committed by its handler. *)
Definition autoEndEffect (prev cur : Game) : Game :=
  if (negb (distance prev =? distance cur)
      || negb (mode_eqb (gameState prev) (gameState cur)))
     && (200 <? distance cur) && mode_eqb (gameState cur) playing
  then endGame cur
  else cur.

End Handlers.

(** ** Controls and events

    What the user can press is what the component renders, lines 423-459:
    the loading screen has no control; the menu has the track buttons and
    START RACE (lines 350-375); the playing screen has the jump area and the
    pause button (lines 321 and 443-451); the pause menu has Resume and Main
    Menu (lines 389-394); the game-over menu has Race Again and Main Menu
    (lines 413-418).  No control calls [endGame]: only the effect does. *)

Inductive Control :=
| BtnTrack (i : nat)      (* the i-th button of the track list *)
| BtnStart                (* START RACE: startGame *)
| BtnJump                 (* TAP TO JUMP: jumpCharacter *)
| BtnPause                (* pauseGame *)
| BtnResume               (* resumeGame *)
| BtnMainMenu             (* resetGame *)
| BtnRaceAgain.           (* startGame *)

Definition rendered (g : Game) (c : Control) : bool :=
  isInitialized g &&
  match gameState g, c with
  | menu, BtnTrack i => (i <? List.length (availableTracks g))%nat
  | menu, BtnStart => true
  | playing, BtnJump => true
  | playing, BtnPause => true
  | paused, BtnResume => true
  | paused, BtnMainMenu => true
  | gameOver, BtnRaceAgain => true
  | gameOver, BtnMainMenu => true
  | _, _ => false
  end.

(** What the event loop delivers: a press at time [now], or one of the
    three timers. *)
Inductive Event :=
| Press (now : Z) (c : Control)
| IntervalFires
| JumpTimerFires
| InitTimerFires.

Section Machine.

Variable net : Backend.

(** The [onPress] of each control. *)
Definition onPress (now : Z) (c : Control) (g : Game) : Game :=
  match c with
  | BtnTrack i =>
    match nth_error (availableTracks g) i with
    | Some track => setCurrentTrack (Some track) g
    | None => g
    end
  | BtnStart | BtnRaceAgain => startGame net g
  | BtnJump => jumpCharacter now g
  | BtnPause => pauseGame g
  | BtnResume => resumeGame g
  | BtnMainMenu => resetGame g
  end.

Definition handle (e : Event) (g : Game) : Game :=
  match e with
  | Press now c => if rendered g c then onPress now c g else g
  | IntervalFires => intervalTick g
  | JumpTimerFires => jumpTimerFires g
  | InitTimerFires => initTimeout g
  end.

(** One turn of the event loop: the handler, then the effect on the
    committed state. *)
Definition step (e : Event) (g : Game) : Game :=
  autoEndEffect net g (handle e g).

Fixpoint run (es : list Event) (g : Game) : Game :=
  match es with
  | [] => g
  | e :: es' => run es' (step e g)
  end.

(** A jump press that gets its bonus: the control is there and the guard of
    [jumpCharacter] lets it through. *)
Definition jumpAccepted (e : Event) (g : Game) : bool :=
  match e with
  | Press _ BtnJump =>
    rendered g BtnJump && negb (isJumping g) && mode_eqb (gameState g) playing
  | _ => false
  end.

(** The number of jump bonuses accrued along a run. *)
Fixpoint jumpBonuses (es : list Event) (g : Game) : Z :=
  match es with
  | [] => 0
  | e :: es' =>
    (if jumpAccepted e g then 1 else 0) + jumpBonuses es' (step e g)
  end.

End Machine.

(** The events of one race: everything but the presses that begin a race or
    leave it for the menu. *)
Definition raceEvent (e : Event) : bool :=
  match e with
  | Press _ BtnStart | Press _ BtnRaceAgain | Press _ BtnMainMenu => false
  | _ => true
  end.

(** The events of one cooldown window: everything but the expiry of the
    jump timer. *)
Definition withinCooldown (e : Event) : bool :=
  match e with
  | JumpTimerFires => false
  | _ => true
  end.

(** The finalization reports in a log. *)
Definition isReport (r : Request) : bool :=
  match r with
  | UpdateSession _ _ _ _ _ => true
  | _ => false
  end.

Definition reports (g : Game) : Z :=
  Z.of_nat (List.length (filter isReport (sent g))).

Definition ticks (n : nat) : list Event := repeat IntervalFires n.

(** ** The transition table of the specification

    The table of section 4.1 read as a relation between the mode and the
    control of each action, with the precondition of [jump] of section 4.3
    and the selection of a track before the start. *)
Definition legal (m : Mode) (c : Control) : bool :=
  match m, c with
  | menu, BtnStart => true          (* Menu -> Playing *)
  | menu, BtnTrack _ => true        (* selection, before starting *)
  | playing, BtnPause => true       (* Playing -> Paused *)
  | playing, BtnJump => true        (* jump: Mode = Playing *)
  | paused, BtnResume => true       (* Paused -> Playing *)
  | paused, BtnMainMenu => true     (* Paused -> Menu *)
  | gameOver, BtnMainMenu => true   (* GameOver -> Menu *)
  | gameOver, BtnRaceAgain => true  (* GameOver -> Playing *)
  | _, _ => false
  end.

(** ** Two concrete backends and two concrete states *)

(** A backend that answers nothing. *)
Definition unreachableNet : Backend :=
  mkBackend (fun _ => None) (fun _ => None) (fun _ => None)
    (fun _ => false) (fun _ => None).

Definition kingston : Track :=
  mkTrack "track_002" "kingston_city" "Kingston Streets" "city" "vehicle"
    "medium" "urban_streets".

Definition someSession : GameSession :=
  mkGameSession "s1" "p1" "jamaica_country" 0 0 "on_foot".

Definition likkleMore : JamaicanDialogue :=
  mkDialogue "Likkle more!" "See you later!".

(** A backend that answers everything. *)
Definition liveNet : Backend :=
  mkBackend (fun _ => Some (mkPlayer "p1" generalName 0))
    (fun _ => Some [fallbackTrack; kingston])
    (fun _ => Some someSession)
    (fun _ => true)
    (fun _ => Some likkleMore).

(** The menu after a successful initialization, and a race begun from it. *)
Definition readyMenu : Game := initializeGame liveNet mount.

Definition freshRace : Game := step liveNet (Press 0 BtnStart) readyMenu.

(** A finished race: 201 ticks, then the automatic end. *)
Definition finishedRace : Game := run liveNet (ticks 201) freshRace.

(** The collaborator is unreachable: every request fails. *)
Definition unreachable (net : Backend) : Prop :=
  forall h,
    createPlayer net h = None /\ listTracks net h = None /\
    createSession net h = None /\ updateSession net h = false /\
    getDialogue net h = None.

(** A race begun while the backend is down, from the menu the 5-second
    timeout set up: no session exists. *)
Definition offlineRace : Game :=
  step unreachableNet (Press 0 BtnStart)
    (step unreachableNet InitTimerFires mount).

(** The events that leave a paused game paused: all but the two buttons of
    the pause menu. *)
Definition keepsPause (e : Event) : bool :=
  match e with
  | Press _ BtnResume | Press _ BtnMainMenu => false
  | _ => true
  end.

(** The reports one end of race sends: one if there is a session. *)
Definition sessionReports (g : Game) : Z :=
  match gameSession g with
  | Some _ => 1
  | None => 0
  end.

(** The invariant of a race begun in [g0] with at most 200 ticks behind it:
    the race is on (playing or paused) below the threshold with nothing
    reported, or it is over at 201 with its report sent. *)
Definition raceInv (g0 g : Game) : Prop :=
  gameSession g = gameSession g0 /\
  (((gameState g = playing \/ gameState g = paused) /\
    distance g <= 200 /\ reports g = reports g0) \/
   (gameState g = gameOver /\ distance g = 201 /\
    reports g = reports g0 + sessionReports g0)).

(** The scoring interval is armed exactly in the playing mode: [isRunning]
    follows [gameState]. *)
Definition synced (g : Game) : Prop :=
  isRunning g = mode_eqb (gameState g) playing.

(** What holds of every state the event loop reaches: the interval follows
    the mode, a game being played is below the threshold of the automatic
    end, and only the menu is shown uninitialized. *)
Definition wellFormed (g : Game) : Prop :=
  synced g /\
  (gameState g = playing -> distance g <= 200) /\
  (gameState g <> menu -> isInitialized g = true).

(** ** What is drawn

    The parts of the render functions that depend on the state. *)

Definition GROUND_HEIGHT : Z := 100.

(** [renderCharacter], lines 301-314: the height the character is drawn
    at. *)
Definition characterBottom (g : Game) : Z :=
  if isJumping g then GROUND_HEIGHT + 60 else GROUND_HEIGHT + 10.


(** The distance shown by [renderGameUI] (line 320) and [renderGameOver]
    (line 404): [Math.floor(distance / 10)] metres. *)
Definition displayedDistance (g : Game) : Z := distance g / 10.

(** A track button of [renderMenu] is highlighted when
    [currentTrack?.id === track.id], line 357. *)
Definition trackSelected (g : Game) (track : Track) : bool :=
  match currentTrack g with
  | Some current => String.eqb (t_id current) (t_id track)
  | None => false
  end.

(** ** The life of the component

    The component mounts, [initializeGame] is called once by the effect of
    lines 74-76 and settles after the events [before] (or never, when
    [after] is [None]); the events [after] follow. *)
Definition lifetime (net : Backend) (before : list Event)
    (after : option (list Event)) : Game :=
  match after with
  | None => run net before mount
  | Some es => run net es (initializeGame net (run net before mount))
  end.

(** *** Invariants of the life of the component *)

(** The distance stays between 0 and 201, and the score is at least ten
    times the distance. *)
Definition bounded (g : Game) : Prop :=
  0 <= distance g <= 201 /\ 10 * distance g <= score g.

(** The menu shows no race: both counters at 0 and no session. *)
Definition menuClean (g : Game) : Prop :=
  gameState g = menu ->
  score g = 0 /\ distance g = 0 /\ gameSession g = None.

(** The jump flag is set exactly while one jump timer is pending. *)
Definition oneJump (g : Game) : Prop :=
  (isJumping g = false /\ jumpTimers g = []) \/
  (isJumping g = true /\ exists deadline, jumpTimers g = [deadline]).

(** Past the loading screen there is a player. *)
Definition hasPlayer (g : Game) : Prop :=
  isInitialized g = true -> currentPlayer g <> None.

(** What a request of the log looks like: a report is of a race of 201
    ticks, and a dialogue is asked for the start or for a victory. *)
Definition requestOk (r : Request) : Prop :=
  match r with
  | UpdateSession _ final_score final_distance time_played completed =>
    final_distance = 201 /\ time_played = 20 /\ completed = true /\
    2010 <= final_score
  | GetDialogue context _ _ => context = "start" \/ context = "victory"
  | _ => True
  end.

Definition logOk (g : Game) : Prop := Forall requestOk (sent g).

Definition sound (g : Game) : Prop :=
  wellFormed g /\ bounded g /\ menuClean g /\ oneJump g /\ hasPlayer g /\
  logOk g.



(** A backend that refuses the finalization report, and one that lists
    Kingston first and has no dialogue to give. *)
Definition reportFailsNet : Backend :=
  mkBackend (fun _ => Some (mkPlayer "p1" generalName 0))
    (fun _ => Some [fallbackTrack; kingston])
    (fun _ => Some someSession)
    (fun _ => false)
    (fun _ => Some likkleMore).

Definition noDialogueNet : Backend :=
  mkBackend (fun _ => Some (mkPlayer "p1" generalName 0))
    (fun _ => Some [kingston; fallbackTrack])
    (fun _ => Some someSession)
    (fun _ => true)
    (fun _ => None).

(** * Properties *)

(** ** Basic facts about the handlers *)

(** Case analysis on what a handler branches on: a flag, an optional value
    or a queue (never on a number). *)
Ltac break_match :=
  match goal with
  | |- context [match ?x with _ => _ end] =>
    match type of x with
    | bool => destruct x eqn:?
    | option _ => destruct x eqn:?
    | list _ => destruct x eqn:?
    end
  end.

(** Projections of updated states, leaving the arithmetic alone. *)
Ltac fields := cbn -[Z.mul Z.add Z.sub Z.div] in *.

Lemma mode_eqb_eq (a b : Mode) : mode_eqb a b = true <-> a = b.
Proof. destruct a, b; simpl; split; congruence. Qed.

Lemma mode_eqb_refl (a : Mode) : mode_eqb a a = true.
Proof. now destruct a. Qed.

(** [endGame] writes [gameState], [isRunning], the log and the dialogue,
    and nothing else. *)
Lemma endGame_frame (net : Backend) (g : Game) :
  let g' := endGame net g in
  gameState g' = gameOver /\ isRunning g' = false /\
  score g' = score g /\ distance g' = distance g /\
  isJumping g' = isJumping g /\ jumpTimers g' = jumpTimers g /\
  gameSession g' = gameSession g /\ isInitialized g' = isInitialized g /\
  currentPlayer g' = currentPlayer g /\ currentTrack g' = currentTrack g /\
  availableTracks g' = availableTracks g.
Proof.
  unfold endGame. repeat break_match; simpl; repeat split; congruence.
Qed.

(** The effect either leaves the committed state alone or ends the game. *)
Lemma autoEndEffect_cases (net : Backend) (prev cur : Game) :
  (autoEndEffect net prev cur = cur /\
   ((distance prev = distance cur /\ gameState prev = gameState cur) \/
    distance cur <= 200 \/ gameState cur <> playing)) \/
  (autoEndEffect net prev cur = endGame net cur /\
   200 < distance cur /\ gameState cur = playing).
Proof.
  unfold autoEndEffect.
  destruct (distance prev =? distance cur) eqn:Ed;
    destruct (mode_eqb (gameState prev) (gameState cur)) eqn:Em;
    destruct (200 <? distance cur) eqn:El;
    destruct (mode_eqb (gameState cur) playing) eqn:Ep; simpl;
    try apply Z.eqb_eq in Ed; try apply mode_eqb_eq in Em;
    try apply Z.ltb_lt in El; try apply Z.ltb_ge in El;
    try apply mode_eqb_eq in Ep;
    try (right; repeat split; (reflexivity || assumption));
    left; split; try reflexivity; auto;
    right; right; intro Hp; apply mode_eqb_eq in Hp; congruence.
Qed.

(** The effect does not run when the handler changed nothing. *)
Lemma autoEndEffect_same (net : Backend) (g : Game) :
  autoEndEffect net g g = g.
Proof.
  unfold autoEndEffect. now rewrite Z.eqb_refl, mode_eqb_refl.
Qed.

(** The effect never touches the counters, the jump flag or its timers. *)
Lemma autoEndEffect_frame (net : Backend) (prev cur : Game) :
  let g' := autoEndEffect net prev cur in
  score g' = score cur /\ distance g' = distance cur /\
  isJumping g' = isJumping cur /\ jumpTimers g' = jumpTimers cur /\
  gameSession g' = gameSession cur /\ isInitialized g' = isInitialized cur.
Proof.
  destruct (autoEndEffect_cases net prev cur) as [[-> _] | [-> _]]; simpl.
  - repeat split; reflexivity.
  - pose proof (endGame_frame net cur) as H; simpl in H. tauto.
Qed.

(** A press whose control is not rendered changes nothing at all. *)
Lemma step_unrendered (net : Backend) (now : Z) (c : Control) (g : Game) :
  rendered g c = false -> step net (Press now c) g = g.
Proof.
  intros H. unfold step, handle. rewrite H. apply autoEndEffect_same.
Qed.

(** Whatever the backend answers, [initializeGame] ends initialized and in
    the mode it began in. *)
Lemma initializeGame_initialized (net : Backend) (g : Game) :
  isInitialized (initializeGame net g) = true /\
  gameState (initializeGame net g) = gameState g.
Proof.
  unfold initializeGame. repeat break_match; simpl; auto.
Qed.


(** Otherwise some request failed, and the player, the track list and the
    dialogue are the fallback ones. *)
Lemma initializeGame_cases (net : Backend) (g : Game) :
  let g' := initializeGame net g in
  (exists p ts d,
      createPlayer net (CreatePlayer generalName :: sent g) = Some p /\
      currentPlayer g' = Some p /\ availableTracks g' = ts /\
      currentTrack g' = hd_error ts /\ dialogue g' = Some d) \/
  (currentPlayer g' = Some fallbackPlayer /\
   availableTracks g' = [fallbackTrack] /\
   dialogue g' = Some fallbackDialogue).
Proof.
  unfold initializeGame. simpl.
  destruct (createPlayer net _) as [p|] eqn:Hp; [|right; simpl; auto].
  simpl. destruct (listTracks net _) as [ts|]; [|right; simpl; auto].
  simpl. destruct (getDialogue net _) as [d|]; [|right; simpl; auto].
  left. exists p, ts, d. simpl. auto.
Qed.

(** ** Initialization and its fallbacks *)

(** C8.  When the collaborator is unreachable, both fallback paths (the
    5-second timeout firing before initialization completed, and the catch
    branch of [initializeGame]) set the player to exactly
    [{id:'temp', name:'General Da Jamaican Boy', high_score:0}] and the
    track list to exactly the one fallback track, and leave the mode at
    Menu. *)
Theorem fallback_when_unreachable (net : Backend) (g : Game) :
  gameState g = menu ->
  (isInitialized g = false ->
   let g' := step net InitTimerFires g in
   currentPlayer g' = Some (mkPlayer "temp" "General Da Jamaican Boy" 0) /\
   availableTracks g' = [fallbackTrack] /\ gameState g' = menu) /\
  (unreachable net ->
   let g' := initializeGame net g in
   currentPlayer g' = Some (mkPlayer "temp" "General Da Jamaican Boy" 0) /\
   availableTracks g' = [fallbackTrack] /\ gameState g' = menu).
Proof.
  intros Hm. split.
  - intros Hi. unfold step, handle, initTimeout. rewrite Hi. simpl.
    unfold autoEndEffect. simpl. rewrite Hm. simpl.
    rewrite andb_false_r. simpl. auto.
  - intros Hu. unfold initializeGame.
    destruct (Hu (sent (fetch (CreatePlayer generalName) g))) as [-> _].
    simpl. auto.
Qed.

Lemma fallback_when_unreachable_witness :
  let g := step unreachableNet InitTimerFires mount in
  let h := initializeGame unreachableNet mount in
  (currentPlayer g = Some fallbackPlayer /\
   availableTracks g = [fallbackTrack] /\ gameState g = menu) /\
  (currentPlayer h = Some fallbackPlayer /\
   availableTracks h = [fallbackTrack] /\ gameState h = menu).
Proof.
  destruct (fallback_when_unreachable unreachableNet mount eq_refl)
    as [Ht Hc].
  split.
  - apply Ht. reflexivity.
  - apply Hc. intros h. repeat split; reflexivity.
Defined.

(** The timeout that fires on an initialized component writes nothing. *)
Lemma initTimeout_initialized (g : Game) :
  isInitialized g = true -> initTimeout g = g.
Proof. intros H. unfold initTimeout. now rewrite H. Qed.

(** C10.  When the 5-second timeout fires after initialization completed
    ([isInitialized] already true), the fallback handler changes nothing:
    the fetched player, track list and selected track (indeed the whole
    state) are as they were. *)
Theorem timeout_after_init_changes_nothing (net : Backend) (g : Game) :
  isInitialized g = true ->
  step net InitTimerFires g = g /\
  currentPlayer (initTimeout g) = currentPlayer g /\
  availableTracks (initTimeout g) = availableTracks g /\
  currentTrack (initTimeout g) = currentTrack g.
Proof.
  intros H. unfold step, handle. rewrite (initTimeout_initialized g H).
  rewrite autoEndEffect_same. auto.
Qed.

Lemma timeout_after_init_changes_nothing_witness :
  step liveNet InitTimerFires readyMenu = readyMenu /\
  currentPlayer (initTimeout readyMenu) = Some (mkPlayer "p1" generalName 0) /\
  availableTracks (initTimeout readyMenu) = [fallbackTrack; kingston] /\
  currentTrack (initTimeout readyMenu) = Some fallbackTrack.
Proof.
  destruct (timeout_after_init_changes_nothing liveNet readyMenu eq_refl)
    as (Hs & Hp & Ht & Hc).
  split; [exact Hs|]. rewrite Hp, Ht, Hc.
  split; [reflexivity|]. split; reflexivity.
Defined.

(** After [initializeGame] has settled, with any answers, the timeout is
    idle. *)
Lemma timeout_after_initializeGame (net : Backend) (g : Game) :
  initTimeout (initializeGame net g) = initializeGame net g.
Proof.
  apply initTimeout_initialized, initializeGame_initialized.
Qed.

(** ** The end of a race *)

Lemma intervalTick_not_playing (g : Game) :
  gameState g <> playing -> intervalTick g = g.
Proof.
  intros H. unfold intervalTick.
  destruct (mode_eqb (gameState g) playing) eqn:E; [|reflexivity].
  apply mode_eqb_eq in E. contradiction.
Qed.

Lemma step_tick_not_playing (net : Backend) (g : Game) :
  gameState g <> playing -> step net IntervalFires g = g.
Proof.
  intros H. unfold step, handle. rewrite intervalTick_not_playing by exact H.
  apply autoEndEffect_same.
Qed.

Lemma run_ticks_not_playing (net : Backend) (n : nat) (g : Game) :
  gameState g <> playing -> run net (ticks n) g = g.
Proof.
  intros H. induction n as [|n IH]; simpl; [reflexivity|].
  now rewrite step_tick_not_playing.
Qed.

(** C9.  [endGame] without a session still sets the mode to GameOver and
    stops the scoring loop, but sends nothing (no finalization report, no
    dialogue request) and leaves the dialogue as it was. *)
Theorem endGame_without_session (net : Backend) (g : Game) :
  gameSession g = None ->
  let g' := endGame net g in
  gameState g' = gameOver /\ isRunning g' = false /\
  (forall n, run net (ticks n) g' = g') /\
  sent g' = sent g /\ dialogue g' = dialogue g /\
  g' = setIsRunning false (setGameState gameOver g).
Proof.
  intros H. unfold endGame. rewrite H. simpl. repeat split.
  intros n. apply run_ticks_not_playing. simpl. discriminate.
Qed.

Lemma endGame_without_session_witness :
  gameSession offlineRace = None /\
  gameState (endGame unreachableNet offlineRace) = gameOver /\
  sent (endGame unreachableNet offlineRace) = sent offlineRace /\
  dialogue (endGame unreachableNet offlineRace) = None.
Proof.
  assert (H : gameSession offlineRace = None) by reflexivity.
  destruct (endGame_without_session unreachableNet offlineRace H)
    as (Hm & _ & _ & Hs & Hd & _).
  split; [exact H|]. split; [exact Hm|]. split; [exact Hs|].
  rewrite Hd. reflexivity.
Defined.

(** C6.  With a session, [endGame] reports the current score, the current
    distance, [floor(distance / 10)] as the time played and
    [completed = true]; when that report goes through, the dialogue request
    that follows has context 'victory' if score > 500 and 'defeat'
    otherwise. *)
Theorem endGame_report (net : Backend) (g : Game) (session : GameSession) :
  gameSession g = Some session ->
  let report :=
    UpdateSession (gs_id session) (score g) (distance g) (distance g / 10)
      true in
  let g' := endGame net g in
  gameState g' = gameOver /\
  (updateSession net (report :: sent g) = false ->
   sent g' = report :: sent g) /\
  (updateSession net (report :: sent g) = true ->
   exists context,
     sent g' =
       GetDialogue context
         (js_or (option_map t_name (currentTrack g)) "jamaica_country")
         (js_or (option_map p_name (currentPlayer g))
            "General Da Jamaican Boy")
       :: report :: sent g /\
     (500 < score g -> context = "victory") /\
     (score g <= 500 -> context = "defeat")).
Proof.
  intros H report g'. split; [apply (endGame_frame net g)|].
  subst g'. unfold endGame. rewrite H. simpl. fold report. split.
  - intros ->. reflexivity.
  - intros ->. exists (if 500 <? score g then "victory" else "defeat").
    split.
    + destruct (getDialogue net _); reflexivity.
    + destruct (500 <? score g) eqn:E.
      * apply Z.ltb_lt in E. split; [reflexivity | lia].
      * apply Z.ltb_ge in E. split; [lia | reflexivity].
Qed.

Lemma endGame_report_witness :
  sent (endGame liveNet (run liveNet (ticks 3) freshRace)) =
    GetDialogue "defeat" "jamaica_country" "General Da Jamaican Boy"
    :: UpdateSession "s1" 30 3 0 true
    :: sent freshRace.
Proof.
  destruct (endGame_report liveNet (run liveNet (ticks 3) freshRace)
              someSession eq_refl) as (_ & _ & H).
  destruct (H eq_refl) as (context & Hs & _ & Hd).
  rewrite Hs, (Hd ltac:(vm_compute; discriminate)). reflexivity.
Defined.

(** ** The transition table *)

Lemma autoEndEffect_not_playing (net : Backend) (prev cur : Game) :
  gameState cur <> playing -> autoEndEffect net prev cur = cur.
Proof.
  intros H.
  destruct (autoEndEffect_cases net prev cur) as [[E _] | [_ [_ E]]];
    [exact E | contradiction].
Qed.

Lemma autoEndEffect_below (net : Backend) (prev cur : Game) :
  distance cur <= 200 -> autoEndEffect net prev cur = cur.
Proof.
  intros H.
  destruct (autoEndEffect_cases net prev cur) as [[E _] | [_ [E _]]];
    [exact E | lia].
Qed.

(** The controls the component renders are controls of the table. *)
Lemma rendered_legal (g : Game) (c : Control) :
  rendered g c = true -> legal (gameState g) c = true.
Proof.
  unfold rendered. destruct (isInitialized g); simpl; [|discriminate].
  destruct (gameState g), c; simpl; auto.
Qed.

(** Once initialized, every control of the table is rendered (a track
    button when the list has that many tracks). *)
Lemma legal_rendered (g : Game) (c : Control) :
  isInitialized g = true ->
  (forall i, c = BtnTrack i -> (i < List.length (availableTracks g))%nat) ->
  legal (gameState g) c = true -> rendered g c = true.
Proof.
  intros Hi Hc. unfold rendered. rewrite Hi. simpl.
  destruct (gameState g), c; simpl; auto.
  intros _. apply Nat.ltb_lt. now apply Hc.
Qed.

(** The claim of C2 read on the handlers fails: [pauseGame] has no guard,
    and called in the menu it leaves the menu. *)
Lemma pauseGame_in_menu_leaves_menu :
  gameState mount = menu /\ gameState (pauseGame mount) = paused /\
  pauseGame mount <> mount.
Proof. repeat split. discriminate. Qed.

(** C2, amended.  An action outside the transition table cannot be
    dispatched: its control is not rendered in that mode, so its press
    leaves the whole state unchanged, and the automatic end does not fire
    outside Playing.  The handlers themselves carry no guard: [pauseGame],
    [resumeGame], [endGame] and [resetGame] set the mode from any mode. *)
Theorem out_of_table_press_changes_nothing
    (net : Backend) (now : Z) (c : Control) (g : Game) :
  legal (gameState g) c = false ->
  rendered g c = false /\ step net (Press now c) g = g /\
  (forall prev, gameState g <> playing -> autoEndEffect net prev g = g) /\
  gameState (pauseGame g) = paused /\ gameState (resumeGame g) = playing /\
  gameState (endGame net g) = gameOver /\ gameState (resetGame g) = menu.
Proof.
  intros H.
  assert (Hr : rendered g c = false).
  { destruct (rendered g c) eqn:E; [|reflexivity].
    apply rendered_legal in E. congruence. }
  split; [exact Hr|]. split; [now apply step_unrendered|].
  split; [intros prev Hp; now apply autoEndEffect_not_playing|].
  repeat split. apply (endGame_frame net g).
Qed.

Lemma out_of_table_press_changes_nothing_witness :
  gameState readyMenu = menu /\
  step liveNet (Press 0 BtnPause) readyMenu = readyMenu.
Proof.
  split; [reflexivity|].
  exact (proj1 (proj2 (out_of_table_press_changes_nothing
                         liveNet 0 BtnPause readyMenu eq_refl))).
Defined.

(** ** Starting a race *)

(** With the session created, [startGame] resets both counters. *)
Lemma startGame_online_resets (net : Backend) (g : Game) p t s :
  currentPlayer g = Some p -> currentTrack g = Some t ->
  createSession net
    (CreateSession (p_id p) (t_name t) (t_character_type t) :: sent g)
    = Some s ->
  let g' := startGame net g in
  score g' = 0 /\ distance g' = 0 /\ gameState g' = playing /\
  isRunning g' = true /\ gameSession g' = Some s.
Proof.
  intros Hp Ht Hs. unfold startGame. rewrite Hp, Ht. simpl. rewrite Hs.
  simpl. auto.
Qed.

(** Without it, the catch branch starts the race on the old counters and
    the old session. *)
Lemma startGame_offline_keeps (net : Backend) (g : Game) p t :
  currentPlayer g = Some p -> currentTrack g = Some t ->
  createSession net
    (CreateSession (p_id p) (t_name t) (t_character_type t) :: sent g)
    = None ->
  let g' := startGame net g in
  score g' = score g /\ distance g' = distance g /\ gameState g' = playing /\
  isRunning g' = true /\ gameSession g' = gameSession g.
Proof.
  intros Hp Ht Hs. unfold startGame. rewrite Hp, Ht. simpl. rewrite Hs.
  simpl. auto.
Qed.

(** Without a player or a track, [startGame] does nothing. *)
Lemma startGame_guard (net : Backend) (g : Game) :
  currentPlayer g = None \/ currentTrack g = None -> startGame net g = g.
Proof.
  intros [H | H]; unfold startGame; rewrite H; [|destruct (currentPlayer g)];
    reflexivity.
Qed.

(** C3.  The code at the failing input: Race Again pressed on a finished
    race (score 2010, distance 201) while the backend is down.  [startGame]
    enters Playing with the counters of the finished race instead of 0 and
    0; the automatic end then fires at once, so the press ends in GameOver
    with a second report of the old session. *)
Theorem race_again_offline_keeps_counters :
  let g := startGame unreachableNet finishedRace in
  let g' := step unreachableNet (Press 0 BtnRaceAgain) finishedRace in
  (score finishedRace = 2010 /\ distance finishedRace = 201 /\
   gameState finishedRace = gameOver) /\
  (gameState g = playing /\ score g = 2010 /\ distance g = 201) /\
  (gameState g' = gameOver /\ score g' = 2010 /\ distance g' = 201 /\
   reports finishedRace = 1 /\ reports g' = 2).
Proof. vm_compute. repeat split; reflexivity. Qed.

(** ** The scoring loop and the jump *)

(** A tick while playing and running: distance +1, score +10. *)
Lemma intervalTick_playing (g : Game) :
  gameState g = playing -> isRunning g = true ->
  distance (intervalTick g) = distance g + 1 /\
  score (intervalTick g) = score g + 10 /\
  gameState (intervalTick g) = playing.
Proof.
  intros Hm Hr. unfold intervalTick. rewrite Hm, Hr. simpl. auto.
Qed.

(** The same through one turn of the event loop, automatic end included. *)
Lemma step_tick_playing (net : Backend) (g : Game) :
  gameState g = playing -> isRunning g = true ->
  distance (step net IntervalFires g) = distance g + 1 /\
  score (step net IntervalFires g) = score g + 10.
Proof.
  intros Hm Hr. unfold step, handle.
  destruct (autoEndEffect_frame net g (intervalTick g)) as (-> & -> & _).
  destruct (intervalTick_playing g Hm Hr) as (-> & -> & _). auto.
Qed.

(** An accepted jump: the flag, +50, one timer at [now + 600], and nothing
    else. *)
Lemma jumpCharacter_accepted (now : Z) (g : Game) :
  gameState g = playing -> isJumping g = false ->
  let g' := jumpCharacter now g in
  isJumping g' = true /\ score g' = score g + 50 /\
  distance g' = distance g /\ gameState g' = playing /\
  jumpTimers g' = jumpTimers g ++ [now + 600].
Proof.
  intros Hm Hj. unfold jumpCharacter. rewrite Hm, Hj. simpl. auto.
Qed.

(** A refused jump: nothing. *)
Lemma jumpCharacter_refused (now : Z) (g : Game) :
  gameState g <> playing \/ isJumping g = true -> jumpCharacter now g = g.
Proof.
  intros [H | H]; unfold jumpCharacter.
  - destruct (mode_eqb (gameState g) playing) eqn:E.
    + apply mode_eqb_eq in E. contradiction.
    + now rewrite orb_true_r.
  - now rewrite H.
Qed.

(** What one handler does to [score - 10 * distance] during a race: +50 for
    an accepted jump, nothing otherwise. *)
Lemma handle_balance (net : Backend) (e : Event) (g : Game) :
  raceEvent e = true ->
  score (handle net e g) - 10 * distance (handle net e g) =
  score g - 10 * distance g + 50 * (if jumpAccepted e g then 1 else 0).
Proof.
  intros He. destruct e as [now c | | |]; fields.
  - destruct c; try discriminate;
      unfold onPress, jumpCharacter, pauseGame, resumeGame;
      destruct (isJumping g), (mode_eqb (gameState g) playing);
      repeat break_match; fields; lia.
  - unfold intervalTick. break_match; fields; lia.
  - unfold jumpTimerFires. break_match; fields; lia.
  - unfold initTimeout. break_match; fields; lia.
Qed.

Lemma step_balance (net : Backend) (e : Event) (g : Game) :
  raceEvent e = true ->
  score (step net e g) - 10 * distance (step net e g) =
  score g - 10 * distance g + 50 * (if jumpAccepted e g then 1 else 0).
Proof.
  intros He. unfold step.
  destruct (autoEndEffect_frame net g (handle net e g)) as (-> & -> & _).
  now apply handle_balance.
Qed.

Lemma run_balance (net : Backend) (es : list Event) :
  forall g, forallb raceEvent es = true ->
  score (run net es g) - 10 * distance (run net es g) =
  score g - 10 * distance g + 50 * jumpBonuses net es g.
Proof.
  induction es as [|e es IH]; intros g H; cbn [run jumpBonuses].
  - lia.
  - cbn [forallb] in H. apply andb_true_iff in H as [He Hes].
    rewrite (IH _ Hes), (step_balance net e g He). lia.
Qed.

(** Every handler keeps [isRunning] in step with the mode; Main Menu does
    because it is rendered only where the loop is already stopped. *)
Lemma handle_synced (net : Backend) (e : Event) (g : Game) :
  synced g -> synced (handle net e g).
Proof.
  unfold synced. intros H. destruct e as [now c | | |]; cbn [handle].
  - unfold rendered.
    destruct (isInitialized g), (gameState g) eqn:Hm, c;
      cbn [andb onPress]; try exact H;
      unfold startGame, jumpCharacter, pauseGame, resumeGame, resetGame;
      repeat break_match; fields; rewrite ?Hm; auto.
  - unfold intervalTick. break_match; fields; auto.
  - unfold jumpTimerFires. break_match; fields; auto.
  - unfold initTimeout. break_match; fields; auto.
Qed.

Lemma step_synced (net : Backend) (e : Event) (g : Game) :
  synced g -> synced (step net e g).
Proof.
  intros H. unfold step.
  destruct (autoEndEffect_cases net g (handle net e g)) as [[-> _] | [-> _]].
  - now apply handle_synced.
  - unfold synced.
    destruct (endGame_frame net (handle net e g)) as (-> & -> & _).
    reflexivity.
Qed.

Lemma run_synced (net : Backend) (es : list Event) :
  forall g, synced g -> synced (run net es g).
Proof.
  induction es as [|e es IH]; intros g H; cbn [run]; [exact H|].
  apply IH. now apply step_synced.
Qed.

(** C1.  During a race begun with score = 0 and distance = 0, a tick while
    playing adds exactly 1 to the distance and 10 to the score, a jump bonus
    adds 50 to the score and nothing to the distance, and after any events
    of the race score = 10 * distance + 50 * (jump bonuses accrued). *)
Theorem score_is_ticks_plus_bonuses
    (net : Backend) (es : list Event) (g : Game) :
  gameState g = playing -> isRunning g = true ->
  score g = 0 -> distance g = 0 -> forallb raceEvent es = true ->
  let g' := run net es g in
  score g' = 10 * distance g' + 50 * jumpBonuses net es g /\
  (gameState g' = playing ->
   distance (step net IntervalFires g') = distance g' + 1 /\
   score (step net IntervalFires g') = score g' + 10) /\
  (forall now, jumpAccepted (Press now BtnJump) g' = true ->
   distance (step net (Press now BtnJump) g') = distance g' /\
   score (step net (Press now BtnJump) g') = score g' + 50).
Proof.
  intros Hp Hr Hs Hd Hes g'. split; [|split].
  - pose proof (run_balance net es g Hes) as H. fold g' in H. lia.
  - intros Hm. apply step_tick_playing; [exact Hm|].
    assert (H : synced g) by (unfold synced; now rewrite Hp, Hr).
    apply (run_synced net es) in H. fold g' in H. unfold synced in H.
    now rewrite H, Hm.
  - intros now Ha. simpl in Ha.
    apply andb_true_iff in Ha as [Ha Hm].
    apply andb_true_iff in Ha as [Hx Hj].
    apply mode_eqb_eq in Hm. apply negb_true_iff in Hj.
    unfold step, handle. rewrite Hx.
    destruct (autoEndEffect_frame net g' (onPress net now BtnJump g'))
      as (-> & -> & _).
    cbn [onPress].
    destruct (jumpCharacter_accepted now g' Hm Hj) as (_ & -> & -> & _).
    auto.
Qed.

(** The example of the specification: three ticks, a jump, two ticks. *)
Lemma score_is_ticks_plus_bonuses_witness :
  let es := ticks 3 ++ [Press 300 BtnJump] ++ ticks 2 in
  score (run liveNet es freshRace) = 100 /\
  distance (run liveNet es freshRace) = 5 /\
  jumpBonuses liveNet es freshRace = 1.
Proof.
  intros es.
  destruct (score_is_ticks_plus_bonuses liveNet es freshRace
              eq_refl eq_refl eq_refl eq_refl eq_refl) as (H & _).
  assert (Hd : distance (run liveNet es freshRace) = 5) by reflexivity.
  assert (Hj : jumpBonuses liveNet es freshRace = 1) by reflexivity.
  rewrite Hd, Hj in H. split; [exact H|]. split; assumption.
Defined.

(** Until its timer fires, nothing clears the jump flag. *)
Lemma handle_keeps_jump (net : Backend) (e : Event) (g : Game) :
  withinCooldown e = true -> isJumping g = true ->
  isJumping (handle net e g) = true.
Proof.
  intros He Hj. destruct e as [now c | | |]; try discriminate; cbn [handle].
  - destruct (rendered g c); [|exact Hj].
    destruct c; cbn [onPress];
      unfold startGame, jumpCharacter, pauseGame, resumeGame, resetGame;
      try rewrite Hj; repeat break_match; fields; auto.
  - unfold intervalTick. break_match; fields; auto.
  - unfold initTimeout. break_match; fields; auto.
Qed.

Lemma run_keeps_jump (net : Backend) (es : list Event) :
  forall g, forallb withinCooldown es = true -> isJumping g = true ->
  isJumping (run net es g) = true.
Proof.
  induction es as [|e es IH]; intros g H Hj; cbn [run]; [exact Hj|].
  cbn [forallb] in H. apply andb_true_iff in H as [He Hes].
  apply IH; [exact Hes|]. unfold step.
  destruct (autoEndEffect_frame net g (handle net e g)) as (_ & _ & -> & _).
  now apply handle_keeps_jump.
Qed.

(** C5.  A jump while playing with no jump in flight sets the flag and adds
    exactly 50; a jump in another mode or with a jump in flight changes
    nothing.  So a second jump in the cooldown window, at once or after any
    events short of the timer's expiry, adds no second bonus and leaves the
    timer at its first deadline. *)
Theorem jump_once_per_cooldown
    (net : Backend) (now t2 : Z) (es : list Event) (g : Game) :
  gameState g = playing -> isJumping g = false ->
  forallb withinCooldown es = true ->
  let g1 := jumpCharacter now g in
  let g2 := run net es g1 in
  (isJumping g1 = true /\ score g1 = score g + 50 /\
   distance g1 = distance g /\ jumpTimers g1 = jumpTimers g ++ [now + 600]) /\
  (jumpCharacter t2 g1 = g1 /\ score (jumpCharacter t2 g1) = score g + 50 /\
   jumpTimers (jumpCharacter t2 g1) = jumpTimers g ++ [now + 600]) /\
  (jumpCharacter t2 g2 = g2 /\ step net (Press t2 BtnJump) g2 = g2) /\
  (forall h, gameState h <> playing \/ isJumping h = true ->
             jumpCharacter t2 h = h).
Proof.
  intros Hm Hj Hes g1 g2.
  destruct (jumpCharacter_accepted now g Hm Hj) as (H1 & H2 & H3 & _ & H5).
  fold g1 in H1, H2, H3, H5.
  assert (Hr1 : jumpCharacter t2 g1 = g1)
    by (apply jumpCharacter_refused; now right).
  assert (Hr2 : jumpCharacter t2 g2 = g2).
  { apply jumpCharacter_refused. right. now apply run_keeps_jump. }
  split; [auto|]. split; [rewrite Hr1; auto|]. split.
  - split; [exact Hr2|]. unfold step, handle.
    destruct (rendered g2 BtnJump); cbn [onPress]; try rewrite Hr2;
      apply autoEndEffect_same.
  - intros h. apply jumpCharacter_refused.
Qed.

Lemma jump_once_per_cooldown_witness :
  let g1 := jumpCharacter 300 freshRace in
  score (jumpCharacter 450 g1) = 50 /\
  jumpTimers (jumpCharacter 450 g1) = [900] /\
  step liveNet (Press 450 BtnJump) (run liveNet (ticks 2) g1) =
    run liveNet (ticks 2) g1.
Proof.
  intros g1.
  destruct (jump_once_per_cooldown liveNet 300 450 (ticks 2) freshRace
              eq_refl eq_refl eq_refl) as (_ & (_ & Hs & Ht) & (_ & Hk) & _).
  split; [exact Hs|]. split; [exact Ht | exact Hk].
Defined.

(** ** Pause and resume *)

(** While paused, only Resume and Main Menu move the mode or the
    counters. *)
Lemma step_paused (net : Backend) (e : Event) (g : Game) :
  gameState g = paused -> keepsPause e = true ->
  let g' := step net e g in
  gameState g' = paused /\ score g' = score g /\ distance g' = distance g /\
  (isInitialized g = true -> isInitialized g' = true).
Proof.
  intros Hm He.
  assert (H : gameState (handle net e g) = paused /\
              score (handle net e g) = score g /\
              distance (handle net e g) = distance g /\
              (isInitialized g = true ->
               isInitialized (handle net e g) = true)).
  { destruct e as [now c | | |]; cbn [handle].
    - unfold rendered. rewrite Hm.
      destruct (isInitialized g) eqn:Hi, c; try discriminate; fields;
        repeat split; auto; congruence.
    - rewrite intervalTick_not_playing by congruence. auto.
    - unfold jumpTimerFires. break_match; fields; auto.
    - unfold initTimeout. break_match; fields; auto. }
  destruct H as (H1 & H2 & H3 & H4). cbn zeta. unfold step.
  rewrite autoEndEffect_not_playing by congruence. auto.
Qed.

Lemma run_paused (net : Backend) (es : list Event) :
  forall g, gameState g = paused -> forallb keepsPause es = true ->
  let g' := run net es g in
  gameState g' = paused /\ score g' = score g /\ distance g' = distance g /\
  (isInitialized g = true -> isInitialized g' = true).
Proof.
  induction es as [|e es IH]; intros g Hm H; cbn zeta; cbn [run].
  - auto.
  - cbn [forallb] in H. apply andb_true_iff in H as [He Hes].
    destruct (step_paused net e g Hm He) as (H1 & H2 & H3 & H4).
    destruct (IH _ H1 Hes) as (K1 & K2 & K3 & K4).
    repeat split; try congruence. intros Hi. auto.
Qed.

(** C7.  Pause and resume leave score and distance as they are: the
    counters at the moment of pausing are the counters while paused,
    whatever happens short of Resume and Main Menu, and the counters the
    first tick after Resume starts from. *)
Theorem pause_resume_keep_counters
    (net : Backend) (t1 t2 : Z) (es : list Event) (g : Game) :
  isInitialized g = true -> gameState g = playing -> distance g <= 200 ->
  forallb keepsPause es = true ->
  let p := step net (Press t1 BtnPause) g in
  let q := run net es p in
  let r := step net (Press t2 BtnResume) q in
  (gameState p = paused /\ score p = score g /\ distance p = distance g) /\
  (gameState q = paused /\ score q = score g /\ distance q = distance g) /\
  (gameState r = playing /\ score r = score g /\ distance r = distance g) /\
  (score (step net IntervalFires r) = score g + 10 /\
   distance (step net IntervalFires r) = distance g + 1).
Proof.
  intros Hi Hm Hd Hes p q r.
  assert (Hp : p = pauseGame g).
  { unfold p, step, handle, rendered. rewrite Hi, Hm. cbn [andb onPress].
    now apply autoEndEffect_not_playing. }
  assert (P : gameState p = paused /\ score p = score g /\
              distance p = distance g /\ isInitialized p = true)
    by (rewrite Hp; fields; auto).
  destruct P as (P1 & P2 & P3 & P4).
  destruct (run_paused net es p P1 Hes) as (Q1 & Q2 & Q3 & Q4).
  fold q in Q1, Q2, Q3, Q4. specialize (Q4 P4).
  assert (Hr : r = resumeGame q).
  { unfold r, step, handle, rendered. rewrite Q4, Q1. cbn [andb onPress].
    apply autoEndEffect_below. fields. lia. }
  assert (R : gameState r = playing /\ isRunning r = true /\
              score r = score q /\ distance r = distance q)
    by (rewrite Hr; fields; auto).
  destruct R as (R1 & R2 & R3 & R4).
  destruct (step_tick_playing net r R1 R2) as (T1 & T2).
  repeat split; try assumption; lia.
Qed.

(** The example of the specification: paused at (100, 5), resumed from
    (100, 5). *)
Lemma pause_resume_keep_counters_witness :
  let g := run liveNet (ticks 3 ++ [Press 300 BtnJump] ++ ticks 2) freshRace in
  let q := run liveNet (ticks 7) (step liveNet (Press 500 BtnPause) g) in
  let r := step liveNet (Press 900 BtnResume) q in
  (score q = 100 /\ distance q = 5) /\
  (score r = 100 /\ distance r = 5) /\
  (score (step liveNet IntervalFires r) = 110 /\
   distance (step liveNet IntervalFires r) = 6).
Proof.
  intros g q r.
  assert (Hd : distance g <= 200) by (vm_compute; discriminate).
  destruct (pause_resume_keep_counters liveNet 500 900 (ticks 7) g
              eq_refl eq_refl Hd eq_refl)
    as (_ & (_ & Q2 & Q3) & (_ & R2 & R3) & (T1 & T2)).
  fold q in Q2, Q3. fold r in R2, R3, T1, T2.
  assert (Hs : score g = 100) by reflexivity.
  assert (Hg : distance g = 5) by reflexivity.
  rewrite Hs in Q2, R2, T1. rewrite Hg in Q3, R3, T2.
  split; [split; [exact Q2 | exact Q3]|].
  split; [split; [exact R2 | exact R3] | split; [exact T1 | exact T2]].
Defined.

(** ** The automatic end *)

(** [endGame] sends one report if there is a session, none otherwise. *)
Lemma reports_endGame (net : Backend) (g : Game) :
  reports (endGame net g) = reports g + sessionReports g.
Proof.
  unfold endGame, reports, sessionReports.
  repeat break_match; fields; lia.
Qed.

(** What one handler of a race does to the log, the session, the mode and
    the distance: nothing is sent, and either the mode and the distance
    stay, or a tick advances the distance while playing, or the game goes
    from playing to paused or back. *)
Lemma handle_race (net : Backend) (e : Event) (g : Game) :
  raceEvent e = true ->
  let h := handle net e g in
  sent h = sent g /\ gameSession h = gameSession g /\
  ((gameState h = gameState g /\ distance h = distance g) \/
   (gameState g = playing /\ gameState h = playing /\
    distance h = distance g + 1) \/
   (gameState g = playing /\ gameState h = paused /\
    distance h = distance g) \/
   (gameState g = paused /\ gameState h = playing /\
    distance h = distance g)).
Proof.
  intros He. destruct e as [now c | | |]; cbn zeta; cbn [handle].
  - unfold rendered.
    destruct (isInitialized g), (gameState g) eqn:Hm, c;
      try discriminate; cbn [andb onPress]; auto;
      unfold jumpCharacter, pauseGame, resumeGame;
      repeat break_match; fields; rewrite ?Hm; auto 10.
  - unfold intervalTick.
    destruct (mode_eqb (gameState g) playing) eqn:Hm; cbn [andb]; auto.
    apply mode_eqb_eq in Hm. destruct (isRunning g); fields; auto 10.
  - unfold jumpTimerFires. break_match; fields; auto.
  - unfold initTimeout. break_match; fields; auto.
Qed.

(** One turn of the event loop keeps the invariant of the race. *)
Lemma step_raceInv (net : Backend) (g0 : Game) (e : Event) (g : Game) :
  raceEvent e = true -> raceInv g0 g -> raceInv g0 (step net e g).
Proof.
  intros He [Hs Hg].
  destruct (handle_race net e g He) as (Hl & Hn & Hh).
  assert (Hr : reports (handle net e g) = reports g)
    by (unfold reports; now rewrite Hl).
  unfold step.
  destruct (autoEndEffect_cases net g (handle net e g))
    as [[-> Hc] | [-> [Hd Hp]]].
  - (* the effect is idle *)
    split; [congruence|].
    destruct Hg as [([Hm | Hm] & Hd & Hk) | (Hm & Hd & Hk)].
    + left. rewrite Hr. split; [|split; [|exact Hk]].
      * destruct Hh as [[-> _] | [(_ & -> & _) | [(_ & -> & _) | (_ & -> & _)]]];
          auto.
      * destruct Hh as [[_ ->] | [(_ & Hq & Hx) | [(_ & _ & ->) | (_ & _ & ->)]]];
          try lia.
        destruct Hc as [[Hy _] | [Hy | Hy]]; [lia | lia | contradiction].
    + left. rewrite Hr. split; [|split; [|exact Hk]].
      * destruct Hh as [[-> _] | [(_ & -> & _) | [(_ & -> & _) | (_ & -> & _)]]];
          auto.
      * destruct Hh as [[_ ->] | [(Hq & _) | [(_ & _ & ->) | (_ & _ & ->)]]];
          try lia.
        congruence.
    + right. rewrite Hr.
      destruct Hh as [[-> ->] | [(Hq & _) | [(Hq & _) | (Hq & _)]]];
        auto; congruence.
  - (* the effect ends the game *)
    destruct (endGame_frame net (handle net e g))
      as (E1 & _ & _ & E4 & _ & _ & E7 & _).
    split; [congruence|]. right.
    rewrite reports_endGame, Hr, E4. unfold sessionReports at 1.
    rewrite Hn, Hs. fold (sessionReports g0).
    destruct Hg as [(_ & Hd0 & Hk) | (Hm & _ & _)].
    + split; [exact E1|]. split; [|lia].
      destruct Hh as [[_ Hx] | [(_ & _ & Hx) | [(_ & _ & Hx) | (_ & _ & Hx)]]];
        lia.
    + destruct Hh as [[Hx _] | [(Hq & _) | [(Hq & _) | (Hq & _)]]];
        congruence.
Qed.

Lemma run_raceInv (net : Backend) (g0 : Game) (es : list Event) :
  forall g, forallb raceEvent es = true -> raceInv g0 g ->
  raceInv g0 (run net es g).
Proof.
  induction es as [|e es IH]; intros g H Hg; cbn [run]; [exact Hg|].
  cbn [forallb] in H. apply andb_true_iff in H as [He Hes].
  apply IH; [exact Hes|]. now apply step_raceInv.
Qed.

(** The claim of C4 at its threshold: after 200 ticks the distance has
    reached 200 and the game is still being played, with nothing
    reported. *)
Lemma still_playing_at_200 :
  let g := run liveNet (ticks 200) freshRace in
  distance g = 200 /\ gameState g = playing /\ gameState g <> gameOver /\
  reports g = 0.
Proof. vm_compute. repeat split; discriminate. Qed.

(** C4, amended.  In a race that is being played with at most 200 ticks
    behind it, after any events of the race the mode is GameOver exactly
    when the distance has exceeded 200 (it is then 201), and the automatic
    end has happened exactly once: one finalization report if the race has
    a session, sent when the game ended and never again. *)
Theorem auto_end_exactly_once
    (net : Backend) (es : list Event) (g : Game) :
  gameState g = playing -> distance g <= 200 ->
  forallb raceEvent es = true ->
  let g' := run net es g in
  (gameState g' = gameOver <-> 200 < distance g') /\
  (gameState g' = gameOver -> distance g' = 201) /\
  reports g' =
    reports g +
    (if mode_eqb (gameState g') gameOver then sessionReports g else 0).
Proof.
  intros Hm Hd Hes g'.
  assert (H0 : raceInv g g) by (split; [reflexivity | left; auto]).
  pose proof (run_raceInv net g es g Hes H0) as [_ H]. fold g' in H.
  destruct H as [([Hp | Hp] & Hle & Hk) | (Ho & He & Hk)].
  - rewrite Hp, Hk. cbn [mode_eqb]. repeat split; try discriminate; lia.
  - rewrite Hp, Hk. cbn [mode_eqb]. repeat split; try discriminate; lia.
  - rewrite Ho, Hk, He. cbn [mode_eqb]. repeat split; auto; lia.
Qed.

(** After 201 ticks the race is over with one report, and 300 further ticks
    change neither. *)
Lemma auto_end_exactly_once_witness :
  (gameState (run liveNet (ticks 201) freshRace) = gameOver /\
   reports (run liveNet (ticks 201) freshRace) = 1) /\
  (gameState (run liveNet (ticks 501) freshRace) = gameOver /\
   distance (run liveNet (ticks 501) freshRace) = 201 /\
   reports (run liveNet (ticks 501) freshRace) = 1).
Proof.
  assert (Hd : distance freshRace <= 200) by (vm_compute; discriminate).
  destruct (auto_end_exactly_once liveNet (ticks 201) freshRace
              eq_refl Hd eq_refl) as (_ & _ & R1).
  destruct (auto_end_exactly_once liveNet (ticks 501) freshRace
              eq_refl Hd eq_refl) as (_ & D2 & R2).
  assert (M1 : gameState (run liveNet (ticks 201) freshRace) = gameOver)
    by (vm_compute; reflexivity).
  assert (M2 : gameState (run liveNet (ticks 501) freshRace) = gameOver)
    by (vm_compute; reflexivity).
  rewrite M1 in R1. rewrite M2 in R2.
  split; [split; [exact M1 | exact R1]|].
  split; [exact M2|]. split; [exact (D2 M2) | exact R2].
Defined.

(** ** The reachable states *)

Lemma handle_initialized (net : Backend) (e : Event) (g : Game) :
  (gameState g <> menu -> isInitialized g = true) ->
  gameState (handle net e g) <> menu ->
  isInitialized (handle net e g) = true.
Proof.
  intros H. destruct e as [now c | | |]; cbn [handle].
  - destruct (rendered g c) eqn:Hr; [intros _ | exact H].
    unfold rendered in Hr. apply andb_true_iff in Hr as [Hi _].
    destruct c; cbn [onPress];
      unfold startGame, jumpCharacter, pauseGame, resumeGame, resetGame;
      repeat break_match; fields; auto.
  - unfold intervalTick. break_match; fields; auto.
  - unfold jumpTimerFires. break_match; fields; auto.
  - unfold initTimeout. break_match; fields; auto.
Qed.

(** One turn of the event loop keeps a state well formed, whatever the
    event and whatever the backend answers. *)
Lemma step_wellFormed (net : Backend) (e : Event) (g : Game) :
  wellFormed g -> wellFormed (step net e g).
Proof.
  intros (Hs & Hd & Hi). split; [now apply step_synced|].
  pose proof (handle_initialized net e g Hi) as Hh. unfold step.
  destruct (autoEndEffect_cases net g (handle net e g))
    as [[-> Hc] | [-> [_ Hp]]].
  - split; [|exact Hh]. intros Hm.
    destruct Hc as [[Hx Hy] | [Hx | Hx]]; [|exact Hx | contradiction].
    rewrite <- Hx. apply Hd. congruence.
  - destruct (endGame_frame net (handle net e g))
      as (E1 & _ & _ & _ & _ & _ & _ & E8 & _).
    split; [congruence|]. intros _. rewrite E8. apply Hh. congruence.
Qed.

Lemma run_wellFormed (net : Backend) (es : list Event) :
  forall g, wellFormed g -> wellFormed (run net es g).
Proof.
  induction es as [|e es IH]; intros g H; cbn [run]; [exact H|].
  apply IH. now apply step_wellFormed.
Qed.

(** The component is well formed at mount and when [initializeGame]
    settles, before or after the timeout; so is every state reached from
    there. *)
Lemma reachable_wellFormed
    (net : Backend) (before after : list Event) :
  wellFormed (run net after (initializeGame net (run net before mount))).
Proof.
  apply run_wellFormed.
  assert (H : wellFormed (run net before mount)).
  { apply run_wellFormed. repeat split; try discriminate.
    intros H. now elim H. }
  destruct H as (Hs & Hd & Hi).
  destruct (initializeGame_initialized net (run net before mount))
    as [Hinit Hm].
  split; [|split].
  - unfold synced in *. rewrite Hm.
    unfold initializeGame, initializeGame_catch. repeat break_match; exact Hs.
  - rewrite Hm. intros Hp. apply Hd in Hp as Hle.
    unfold initializeGame, initializeGame_catch. repeat break_match; exact Hle.
  - intros _. exact Hinit.
Qed.

(** ** Invariants of the life of the component *)

Lemma run_invariant (net : Backend) (P : Game -> Prop) :
  (forall e g, P g -> P (step net e g)) ->
  forall es g, P g -> P (run net es g).
Proof.
  intros Hstep. induction es as [|e es IH]; intros g H; cbn [run]; auto.
Qed.

Lemma lifetime_invariant (net : Backend) (P : Game -> Prop) :
  P mount ->
  (forall e g, P g -> P (step net e g)) ->
  (forall g, P g -> P (initializeGame net g)) ->
  forall before after, P (lifetime net before after).
Proof.
  intros H0 Hstep Hinit before [es|]; unfold lifetime.
  - apply run_invariant; [exact Hstep|]. apply Hinit.
    now apply run_invariant.
  - now apply run_invariant.
Qed.

(** [initializeGame] writes the player, the tracks, the dialogue, the flag
    and the log; the log grows by requests for a player, for the tracks and
    for the start dialogue. *)
Lemma initializeGame_frame (net : Backend) (g : Game) :
  let g' := initializeGame net g in
  gameState g' = gameState g /\ isRunning g' = isRunning g /\
  score g' = score g /\ distance g' = distance g /\
  gameSession g' = gameSession g /\ isJumping g' = isJumping g /\
  jumpTimers g' = jumpTimers g /\ isInitialized g' = true /\
  currentPlayer g' <> None /\ (logOk g -> logOk g').
Proof.
  unfold initializeGame, initializeGame_catch, logOk.
  repeat break_match; fields; repeat split; try discriminate;
    intros H; repeat (constructor; [simpl; auto|]); exact H.
Qed.

(** The handlers keep the distance within bounds and the score ahead of
    it. *)
Lemma handle_bounded (net : Backend) (e : Event) (g : Game) :
  (gameState g = playing -> distance g <= 200) ->
  bounded g -> bounded (handle net e g).
Proof.
  unfold bounded. intros Hp H. destruct e as [now c | | |]; cbn [handle].
  - destruct (rendered g c); [|exact H].
    destruct c; cbn [onPress];
      unfold startGame, jumpCharacter, pauseGame, resumeGame, resetGame;
      repeat break_match; fields; lia.
  - unfold intervalTick.
    destruct (mode_eqb (gameState g) playing) eqn:Hm; cbn [andb]; [|exact H].
    apply mode_eqb_eq in Hm. specialize (Hp Hm).
    destruct (isRunning g); fields; lia.
  - unfold jumpTimerFires. break_match; fields; lia.
  - unfold initTimeout. break_match; fields; lia.
Qed.

Lemma step_bounded (net : Backend) (e : Event) (g : Game) :
  wellFormed g -> bounded g -> bounded (step net e g).
Proof.
  intros (_ & Hp & _) H. unfold step, bounded.
  destruct (autoEndEffect_frame net g (handle net e g)) as (-> & -> & _).
  now apply handle_bounded.
Qed.

Lemma handle_menuClean (net : Backend) (e : Event) (g : Game) :
  menuClean g -> menuClean (handle net e g).
Proof.
  unfold menuClean. intros H. destruct e as [now c | | |]; cbn [handle].
  - unfold rendered.
    destruct (isInitialized g), (gameState g) eqn:Hm, c;
      cbn [andb onPress]; try exact H;
      unfold startGame, jumpCharacter, pauseGame, resumeGame, resetGame;
      repeat break_match; fields; rewrite ?Hm; auto; discriminate.
  - unfold intervalTick.
    destruct (mode_eqb (gameState g) playing) eqn:Hm; cbn [andb]; [|exact H].
    apply mode_eqb_eq in Hm. destruct (isRunning g); fields; [|exact H].
    rewrite Hm. discriminate.
  - unfold jumpTimerFires. break_match; fields; auto.
  - unfold initTimeout. break_match; fields; auto.
Qed.

Lemma step_menuClean (net : Backend) (e : Event) (g : Game) :
  menuClean g -> menuClean (step net e g).
Proof.
  intros H. unfold step.
  destruct (autoEndEffect_cases net g (handle net e g)) as [[-> _] | [-> _]].
  - now apply handle_menuClean.
  - unfold menuClean.
    destruct (endGame_frame net (handle net e g)) as (-> & _). discriminate.
Qed.

Lemma handle_oneJump (net : Backend) (e : Event) (g : Game) :
  oneJump g -> oneJump (handle net e g).
Proof.
  unfold oneJump. intros H. destruct e as [now c | | |]; cbn [handle].
  - destruct (rendered g c); [|exact H].
    destruct c; cbn [onPress];
      unfold startGame, jumpCharacter, pauseGame, resumeGame, resetGame,
        setTimeout;
      repeat break_match; fields; try exact H.
    destruct H as [[_ ->] | [Hj _]].
    + right. split; [reflexivity|]. now exists (now + 600).
    + apply orb_false_iff in Heqb as [Hx _]. congruence.
  - unfold intervalTick. break_match; fields; exact H.
  - unfold jumpTimerFires. destruct (jumpTimers g) as [|t rest] eqn:Ht;
      fields; [rewrite Ht; exact H|].
    left. split; [reflexivity|].
    destruct H as [[_ Hx] | [_ [d Hx]]]; congruence.
  - unfold initTimeout. break_match; fields; exact H.
Qed.

Lemma step_oneJump (net : Backend) (e : Event) (g : Game) :
  oneJump g -> oneJump (step net e g).
Proof.
  intros H. unfold step, oneJump.
  destruct (autoEndEffect_frame net g (handle net e g))
    as (_ & _ & -> & -> & _).
  now apply handle_oneJump.
Qed.

Lemma handle_hasPlayer (net : Backend) (e : Event) (g : Game) :
  hasPlayer g -> hasPlayer (handle net e g).
Proof.
  unfold hasPlayer. intros H. destruct e as [now c | | |]; cbn [handle].
  - destruct (rendered g c); [|exact H].
    destruct c; cbn [onPress];
      unfold startGame, jumpCharacter, pauseGame, resumeGame, resetGame;
      repeat break_match; fields; auto;
      intros Hi; specialize (H Hi); congruence.
  - unfold intervalTick. break_match; fields; exact H.
  - unfold jumpTimerFires. break_match; fields; exact H.
  - unfold initTimeout. break_match; fields; [discriminate | exact H].
Qed.

Lemma step_hasPlayer (net : Backend) (e : Event) (g : Game) :
  hasPlayer g -> hasPlayer (step net e g).
Proof.
  intros H. unfold step.
  destruct (autoEndEffect_cases net g (handle net e g)) as [[-> _] | [-> _]].
  - now apply handle_hasPlayer.
  - unfold hasPlayer.
    destruct (endGame_frame net (handle net e g))
      as (_ & _ & _ & _ & _ & _ & _ & -> & -> & _).
    now apply handle_hasPlayer.
Qed.

(** No handler sends a report or asks for a dialogue: only [startGame]
    sends, a request for a session. *)
Lemma handle_logOk (net : Backend) (e : Event) (g : Game) :
  logOk g -> logOk (handle net e g).
Proof.
  unfold logOk. intros H. destruct e as [now c | | |]; cbn [handle].
  - destruct (rendered g c); [|exact H].
    destruct c; cbn [onPress];
      unfold startGame, jumpCharacter, pauseGame, resumeGame, resetGame;
      repeat break_match; fields; try exact H;
      (constructor; [exact I | exact H]).
  - unfold intervalTick. break_match; fields; exact H.
  - unfold jumpTimerFires. break_match; fields; exact H.
  - unfold initTimeout. break_match; fields; exact H.
Qed.

(** [endGame] at the end of 201 ticks reports those 201 ticks and asks for
    the victory dialogue. *)
Lemma endGame_logOk (net : Backend) (g : Game) :
  distance g = 201 -> 2010 <= score g -> logOk g -> logOk (endGame net g).
Proof.
  unfold logOk, endGame. intros Hd Hs H.
  assert (Hv : (500 <? score g) = true) by (apply Z.ltb_lt; lia).
  rewrite Hv, Hd. repeat break_match; fields; try exact H;
    repeat (constructor; [simpl; auto|]); exact H.
Qed.

Lemma step_logOk (net : Backend) (e : Event) (g : Game) :
  wellFormed g -> bounded g -> logOk g -> logOk (step net e g).
Proof.
  intros (_ & Hp & _) Hb H.
  pose proof (handle_bounded net e g Hp Hb) as [Hd Hs].
  pose proof (handle_logOk net e g H) as Hl. unfold step.
  destruct (autoEndEffect_cases net g (handle net e g))
    as [[-> _] | [-> [Hx _]]]; [exact Hl|].
  apply endGame_logOk; [lia | lia | exact Hl].
Qed.

Lemma mount_sound : sound mount.
Proof.
  unfold sound, wellFormed, synced, bounded, menuClean, oneJump, hasPlayer,
    logOk. cbn. repeat split; try discriminate; try lia; auto.
Qed.

Lemma step_sound (net : Backend) (e : Event) (g : Game) :
  sound g -> sound (step net e g).
Proof.
  intros (Hw & Hb & Hm & Hj & Hp & Hl). unfold sound.
  split; [now apply step_wellFormed|].
  split; [now apply step_bounded|].
  split; [now apply step_menuClean|].
  split; [now apply step_oneJump|].
  split; [now apply step_hasPlayer | now apply step_logOk].
Qed.

Lemma initializeGame_sound (net : Backend) (g : Game) :
  sound g -> sound (initializeGame net g).
Proof.
  intros ((Hs & Hd & Hi) & Hb & Hm & Hj & Hp & Hl).
  destruct (initializeGame_frame net g)
    as (E1 & E2 & E3 & E4 & E5 & E6 & E7 & E8 & E9 & E10).
  unfold sound, wellFormed, synced, bounded, menuClean, oneJump, hasPlayer
    in *.
  rewrite E1, E2, E3, E4, E5, E6, E7, E8. auto 10.
Qed.

(** Every state of every life of the component is sound. *)
Lemma lifetime_sound (net : Backend) (before : list Event)
    (after : option (list Event)) :
  sound (lifetime net before after).
Proof.
  apply lifetime_invariant.
  - exact mount_sound.
  - intros e g. apply step_sound.
  - apply initializeGame_sound.
Qed.

(** X2.  The distance is never negative and never above 201, the score is
    never below ten times the distance, and the distance shown is between
    0 and 20 metres. *)
Theorem distance_stays_within_201
    (net : Backend) (before : list Event) (after : option (list Event)) :
  let g := lifetime net before after in
  0 <= distance g <= 201 /\ 10 * distance g <= score g /\
  0 <= displayedDistance g <= 20.
Proof.
  intros g.
  destruct (lifetime_sound net before after) as (_ & [Hd Hs] & _).
  fold g in Hd, Hs. split; [exact Hd|]. split; [exact Hs|].
  unfold displayedDistance. split.
  - apply Z.div_pos; lia.
  - change 20 with (201 / 10). apply Z.div_le_mono; lia.
Qed.
(** X3.  The jump flag is set exactly while a jump timer is pending, and
    never more than one is: so the next expiry of the jump timer always
    clears the flag and empties the queue, and the character is drawn
    raised (at 160) exactly while a timer is pending and on the ground (at
    110) after it fired. *)
Theorem jump_flag_has_one_timer
    (net : Backend) (before : list Event) (after : option (list Event)) :
  let g := lifetime net before after in
  (isJumping g = true <-> jumpTimers g <> []) /\
  (List.length (jumpTimers g) <= 1)%nat /\
  (characterBottom g = 160 <-> jumpTimers g <> []) /\
  isJumping (step net JumpTimerFires g) = false /\
  jumpTimers (step net JumpTimerFires g) = [] /\
  characterBottom (step net JumpTimerFires g) = 110.
Proof.
  intros g.
  destruct (lifetime_sound net before after) as (_ & _ & _ & Hj & _).
  fold g in Hj.
  assert (Hs : oneJump (step net JumpTimerFires g))
    by now apply step_oneJump.
  assert (Hf : isJumping (step net JumpTimerFires g) = false).
  { unfold step.
    destruct (autoEndEffect_frame net g (handle net JumpTimerFires g))
      as (_ & _ & -> & _).
    cbn [handle]. unfold jumpTimerFires.
    destruct Hj as [[Hx ->] | [_ [d ->]]]; [exact Hx | reflexivity]. }
  unfold characterBottom. rewrite Hf.
  destruct Hs as [[_ Ht] | [Hx _]]; [|congruence]. rewrite Ht.
  destruct Hj as [[-> ->] | [-> [d ->]]]; cbn;
    repeat split; try congruence; try discriminate; try lia;
    intros H; now elim H.
Qed.
Lemma jump_flag_has_one_timer_witness :
  let g := lifetime liveNet []
             (Some [Press 0 BtnStart; IntervalFires; Press 100 BtnJump]) in
  jumpTimers g = [700] /\ isJumping g = true /\ characterBottom g = 160 /\
  characterBottom (step liveNet JumpTimerFires g) = 110.
Proof.
  intros g.
  destruct (jump_flag_has_one_timer liveNet []
              (Some [Press 0 BtnStart; IntervalFires; Press 100 BtnJump]))
    as (Hj & _ & Hb & _ & _ & Hl).
  fold g in Hj, Hb, Hl.
  assert (Ht : jumpTimers g = [700]) by reflexivity.
  assert (Hn : jumpTimers g <> []) by (rewrite Ht; discriminate).
  split; [exact Ht|]. split; [exact (proj2 Hj Hn)|].
  split; [exact (proj2 Hb Hn) | exact Hl].
Defined.

(** X4.  Every finalization report ever sent is of a race of exactly 201
    ticks: distance 201, time played 20, completed, score at least 2010.
    And every dialogue ever requested is for the start or for a victory:
    the 'defeat' dialogue is never requested. *)
Theorem defeat_is_never_requested
    (net : Backend) (before : list Event) (after : option (list Event)) :
  let g := lifetime net before after in
  (forall id s d t c, In (UpdateSession id s d t c) (sent g) ->
     d = 201 /\ t = 20 /\ c = true /\ 2010 <= s) /\
  (forall context track_name player_name,
     In (GetDialogue context track_name player_name) (sent g) ->
     context = "start" \/ context = "victory").
Proof.
  intros g.
  destruct (lifetime_sound net before after) as (_ & _ & _ & _ & _ & Hl).
  fold g in Hl. unfold logOk in Hl. rewrite Forall_forall in Hl. split.
  - intros id s d t c H. exact (Hl _ H).
  - intros context tn pn H. exact (Hl _ H).
Qed.

Lemma defeat_is_never_requested_witness :
  let g := lifetime liveNet [] (Some (Press 0 BtnStart :: ticks 201)) in
  In (GetDialogue "victory" "jamaica_country" generalName) (sent g) /\
  In (UpdateSession "s1" 2010 201 20 true) (sent g) /\
  (2010 <= 2010 /\ ("victory" = "start" \/ "victory" = "victory")).
Proof.
  intros g.
  assert (Hd : In (GetDialogue "victory" "jamaica_country" generalName)
                 (sent g)) by (vm_compute; left; reflexivity).
  assert (Hu : In (UpdateSession "s1" 2010 201 20 true) (sent g))
    by (vm_compute; right; left; reflexivity).
  destruct (defeat_is_never_requested liveNet []
              (Some (Press 0 BtnStart :: ticks 201))) as [Hr Hc].
  split; [exact Hd|]. split; [exact Hu|]. split.
  - exact (proj2 (proj2 (proj2 (Hr "s1" 2010 201 20 true Hu)))).
  - exact (Hc "victory" "jamaica_country" generalName Hd).
Defined.


(** ** Pause, ticks and counters *)

Lemma step_pause_playing (net : Backend) (now : Z) (g : Game) :
  isInitialized g = true -> gameState g = playing ->
  step net (Press now BtnPause) g = pauseGame g.
Proof.
  intros Hi Hm. unfold step, handle, rendered. rewrite Hi, Hm.
  cbn [andb onPress]. now apply autoEndEffect_not_playing.
Qed.

(** X6.  Pause followed by Resume gives back the very state the game was
    paused in: nothing but the mode and the interval flag is written, and
    both are restored. *)
Theorem pause_then_resume_restores_the_state
    (net : Backend) (t1 t2 : Z) (g : Game) :
  isInitialized g = true -> gameState g = playing -> isRunning g = true ->
  distance g <= 200 ->
  step net (Press t2 BtnResume) (step net (Press t1 BtnPause) g) = g.
Proof.
  intros Hi Hm Hr Hd. rewrite (step_pause_playing net t1 g Hi Hm).
  unfold step, handle, rendered. fields. rewrite Hi. cbn [andb onPress].
  rewrite autoEndEffect_below by (fields; exact Hd).
  destruct g. fields. now subst.
Qed.

Lemma pause_then_resume_restores_the_state_witness :
  step liveNet (Press 9 BtnResume) (step liveNet (Press 5 BtnPause) freshRace)
  = freshRace.
Proof.
  apply pause_then_resume_restores_the_state;
    [reflexivity | reflexivity | reflexivity | vm_compute; discriminate].
Defined.

(** X7.  A race that is being played, left to its ticks, advances one per
    tick up to 201 and stops there: after [n] ticks the distance is
    [min (distance + n) 201], the score has grown by ten times the ticks
    that counted, and the game is over exactly when 201 was reached. *)
Theorem ticks_run_the_race_to_201
    (net : Backend) (n : nat) (g : Game) :
  gameState g = playing -> isRunning g = true -> distance g <= 200 ->
  let g' := run net (ticks n) g in
  distance g' = Z.min (distance g + Z.of_nat n) 201 /\
  score g' = score g + 10 * (distance g' - distance g) /\
  gameState g' =
    (if distance g + Z.of_nat n <=? 200 then playing else gameOver).
Proof.
  revert g. induction n as [|n IH]; intros g Hm Hr Hd; cbn zeta.
  - cbn [ticks repeat run]. rewrite Z.add_0_r, Z.min_l by lia.
    replace (distance g <=? 200) with true by (symmetry; apply Z.leb_le; lia).
    repeat split; [lia | exact Hm].
  - change (ticks (S n)) with (IntervalFires :: ticks n). cbn [run].
    destruct (intervalTick_playing g Hm Hr) as (Td & Ts & Tm).
    assert (Tr : isRunning (intervalTick g) = true)
      by (unfold intervalTick; rewrite Hm, Hr; fields; exact Hr).
    destruct (autoEndEffect_cases net g (intervalTick g))
      as [[E Hc] | [E [Hx _]]];
      change (autoEndEffect net g (intervalTick g))
        with (step net IntervalFires g) in E; rewrite E.
    + assert (Hle : distance (intervalTick g) <= 200).
      { destruct Hc as [[Hy _] | [Hy | Hy]]; [lia | lia | contradiction]. }
      destruct (IH (intervalTick g) Tm Tr Hle) as (I1 & I2 & I3).
      rewrite I1, I2, I3, Td, Ts.
      replace (distance g + 1 + Z.of_nat n) with (distance g + Z.of_nat (S n))
        by lia.
      repeat split; lia.
    + destruct (endGame_frame net (intervalTick g))
        as (E1 & _ & E3 & E4 & _).
      rewrite run_ticks_not_playing by (rewrite E1; discriminate).
      rewrite E1, E3, E4, Td, Ts.
      replace (distance g + Z.of_nat (S n) <=? 200) with false
        by (symmetry; apply Z.leb_gt; lia).
      rewrite Z.min_r by lia. repeat split; lia.
Qed.

Lemma ticks_run_the_race_to_201_witness :
  distance (run liveNet (ticks 250) freshRace) = 201 /\
  score (run liveNet (ticks 250) freshRace) = 2010 /\
  gameState (run liveNet (ticks 250) freshRace) = gameOver.
Proof.
  assert (Hd : distance freshRace <= 200) by (vm_compute; discriminate).
  destruct (ticks_run_the_race_to_201 liveNet 250 freshRace
              eq_refl eq_refl Hd) as (H1 & H2 & H3).
  rewrite H1 in H2. split; [exact H1|]. split; [exact H2 | exact H3].
Defined.




(** ** The loading screen *)

Lemma handle_stays_initialized (net : Backend) (e : Event) (g : Game) :
  isInitialized g = true -> isInitialized (handle net e g) = true.
Proof.
  intros H. destruct e as [now c | | |]; cbn [handle].
  - destruct (rendered g c); [|exact H].
    destruct c; cbn [onPress];
      unfold startGame, jumpCharacter, pauseGame, resumeGame, resetGame;
      repeat break_match; fields; auto.
  - unfold intervalTick. break_match; fields; auto.
  - unfold jumpTimerFires. break_match; fields; auto.
  - unfold initTimeout. break_match; fields; auto.
Qed.

(** X9.  The loading screen never comes back and is never left without a
    player: once initialized the component stays initialized through any
    events, and an initialized component always has a current player. *)
Theorem loading_screen_never_returns
    (net : Backend) (before : list Event) (after : option (list Event))
    (es : list Event) :
  let g := lifetime net before after in
  isInitialized g = true ->
  currentPlayer g <> None /\
  isInitialized (run net es g) = true /\
  currentPlayer (run net es g) <> None.
Proof.
  intros g Hi.
  pose proof (lifetime_sound net before after) as Hs. fold g in Hs.
  assert (Hr : isInitialized (run net es g) = true).
  { apply (run_invariant net (fun h => isInitialized h = true));
      [|exact Hi].
    intros e h H. unfold step.
    destruct (autoEndEffect_frame net h (handle net e h))
      as (_ & _ & _ & _ & _ & ->).
    now apply handle_stays_initialized. }
  assert (Hs' : sound (run net es g))
    by (apply run_invariant; [intros e h; apply step_sound | exact Hs]).
  destruct Hs as (_ & _ & _ & _ & Hp & _).
  destruct Hs' as (_ & _ & _ & _ & Hp' & _).
  split; [now apply Hp|]. split; [exact Hr | now apply Hp'].
Qed.

Lemma loading_screen_never_returns_witness :
  let g := lifetime unreachableNet [] (Some []) in
  let es := [Press 0 (BtnTrack 0); Press 1 BtnStart; IntervalFires] in
  currentPlayer g <> None /\
  isInitialized (run unreachableNet es g) = true /\
  currentPlayer (run unreachableNet es g) <> None.
Proof.
  intros g es.
  exact (loading_screen_never_returns unreachableNet [] (Some []) es
           eq_refl).
Defined.

(** ** Tracks *)

Lemma step_track (net : Backend) (now : Z) (i : nat) (t : Track) (g : Game) :
  isInitialized g = true -> gameState g = menu ->
  nth_error (availableTracks g) i = Some t ->
  step net (Press now (BtnTrack i)) g = setCurrentTrack (Some t) g.
Proof.
  intros Hi Hm Ht. unfold step, handle, rendered. rewrite Hi, Hm.
  cbn [andb].
  assert (Hl : (i <? List.length (availableTracks g))%nat = true).
  { apply Nat.ltb_lt, nth_error_Some. congruence. }
  rewrite Hl. cbn [onPress]. rewrite Ht.
  apply autoEndEffect_not_playing. fields. rewrite Hm. discriminate.
Qed.

(** X10.  When the backend is unreachable from the start, the catch branch
    of [initializeGame] selects no track (the timeout selects the fallback
    track, the catch branch only lists it): START RACE does nothing until
    the player taps the track, and then starts an offline race. *)
Theorem offline_menu_needs_a_track_tap
    (net : Backend) (t0 t1 t2 : Z) (g : Game) :
  unreachable net -> gameState g = menu -> currentTrack g = None ->
  distance g <= 200 ->
  let m := initializeGame net g in
  currentTrack m = None /\
  step net (Press t0 BtnStart) m = m /\
  (let m' := step net (Press t1 (BtnTrack 0)) m in
   currentTrack m' = Some fallbackTrack /\
   gameState (step net (Press t2 BtnStart) m') = playing /\
   gameSession (step net (Press t2 BtnStart) m') = gameSession g).
Proof.
  intros Hu Hm Ht Hd m.
  assert (Em : m = initializeGame_catch (fetch (CreatePlayer generalName) g)).
  { unfold m, initializeGame.
    destruct (Hu (sent (fetch (CreatePlayer generalName) g))) as [-> _].
    reflexivity. }
  assert (Ht' : currentTrack m = None) by (rewrite Em; exact Ht).
  split; [exact Ht'|]. split.
  - unfold step, handle. destruct (rendered m BtnStart);
      [|apply autoEndEffect_same].
    cbn [onPress]. rewrite startGame_guard by (now right).
    apply autoEndEffect_same.
  - cbn zeta.
    rewrite (step_track net t1 0 fallbackTrack m)
      by (rewrite Em; fields; auto).
    split; [reflexivity|].
    unfold step, handle, rendered. rewrite Em. fields. rewrite Hm.
    cbn [andb onPress]. unfold startGame. fields.
    destruct (Hu (CreateSession "temp" "jamaica_country" "on_foot"
                    :: CreatePlayer generalName :: sent g))
      as (_ & _ & -> & _).
    rewrite autoEndEffect_below by (fields; exact Hd). fields. auto.
Qed.

Lemma offline_menu_needs_a_track_tap_witness :
  let m := initializeGame unreachableNet mount in
  step unreachableNet (Press 0 BtnStart) m = m /\
  gameState
    (step unreachableNet (Press 2 BtnStart)
       (step unreachableNet (Press 1 (BtnTrack 0)) m)) = playing.
Proof.
  intros m.
  assert (Hu : unreachable unreachableNet)
    by (intros h; repeat split; reflexivity).
  assert (Hd : distance mount <= 200) by (vm_compute; discriminate).
  destruct (offline_menu_needs_a_track_tap unreachableNet 0 1 2 mount
              Hu eq_refl eq_refl Hd) as (_ & Hs & _ & Hp & _).
  split; [exact Hs | exact Hp].
Defined.

Lemma nth_error_same_id (tracks : list Track) (i j : nat) (t t' : Track) :
  NoDup (map t_id tracks) ->
  nth_error tracks i = Some t -> nth_error tracks j = Some t' ->
  t_id t = t_id t' -> i = j.
Proof.
  intros Hn Hi Hj He.
  apply (proj1 (NoDup_nth_error (map t_id tracks)) Hn).
  - rewrite length_map. apply nth_error_Some. congruence.
  - rewrite !nth_error_map, Hi, Hj. cbn. congruence.
Qed.

(** X11.  After a tap on a track button of the menu, that track is the
    current one and, when the tracks have distinct ids, its button is the
    only one highlighted. *)
Theorem tapped_track_is_the_one_highlighted
    (net : Backend) (now : Z) (i : nat) (t : Track) (g : Game) :
  isInitialized g = true -> gameState g = menu ->
  nth_error (availableTracks g) i = Some t ->
  NoDup (map t_id (availableTracks g)) ->
  let g' := step net (Press now (BtnTrack i)) g in
  currentTrack g' = Some t /\
  availableTracks g' = availableTracks g /\
  (forall j t', nth_error (availableTracks g') j = Some t' ->
                (trackSelected g' t' = true <-> j = i)).
Proof.
  intros Hi Hm Ht Hn g'. unfold g'. rewrite (step_track net now i t g Hi Hm Ht).
  fields. split; [reflexivity|]. split; [reflexivity|].
  intros j t' Hj. unfold trackSelected. fields. rewrite String.eqb_eq. split.
  - intros He. symmetry. now apply (nth_error_same_id _ i j t t' Hn).
  - intros ->. congruence.
Qed.

Lemma tapped_track_is_the_one_highlighted_witness :
  let g' := step liveNet (Press 0 (BtnTrack 1)) readyMenu in
  currentTrack g' = Some kingston /\
  trackSelected g' kingston = true /\
  trackSelected g' fallbackTrack <> true.
Proof.
  intros g'.
  assert (Hn : NoDup (map t_id (availableTracks readyMenu))).
  { vm_compute. constructor; [|constructor; [|constructor]].
    - intros [H | []]. discriminate.
    - intros []. }
  destruct (tapped_track_is_the_one_highlighted liveNet 0 1 kingston
              readyMenu eq_refl eq_refl eq_refl Hn) as (Hc & _ & Hs).
  fold g' in Hc, Hs. split; [exact Hc|]. split.
  - apply (Hs 1%nat kingston); reflexivity.
  - intros H. apply (Hs 0%nat fallbackTrack) in H; [discriminate | reflexivity].
Defined.

(** X12.  The session is requested for the track that was tapped: after a
    tap on the i-th track and START RACE, the one request sent is for a
    session of the current player on that track, with that track's
    character. *)
Theorem session_is_for_the_tapped_track
    (net : Backend) (t1 t2 : Z) (i : nat) (p : Player) (t : Track)
    (g : Game) :
  isInitialized g = true -> gameState g = menu -> distance g <= 200 ->
  currentPlayer g = Some p ->
  nth_error (availableTracks g) i = Some t ->
  let g' := step net (Press t2 BtnStart)
              (step net (Press t1 (BtnTrack i)) g) in
  sent g' =
    CreateSession (p_id p) (t_name t) (t_character_type t) :: sent g /\
  gameState g' = playing.
Proof.
  intros Hi Hm Hd Hp Ht. cbn zeta. rewrite (step_track net t1 i t g Hi Hm Ht).
  unfold step, handle, rendered. fields. rewrite Hi, Hm.
  cbn [andb onPress]. unfold startGame. fields. rewrite Hp.
  rewrite autoEndEffect_below; break_match; fields; auto; lia.
Qed.

Lemma session_is_for_the_tapped_track_witness :
  sent (step liveNet (Press 1 BtnStart)
          (step liveNet (Press 0 (BtnTrack 1)) readyMenu)) =
  CreateSession "p1" "kingston_city" "vehicle" :: sent readyMenu.
Proof.
  assert (Hd : distance readyMenu <= 200) by (vm_compute; discriminate).
  exact (proj1 (session_is_for_the_tapped_track liveNet 0 1 1
                  (mkPlayer "p1" generalName 0) kingston readyMenu
                  eq_refl eq_refl Hd eq_refl eq_refl)).
Defined.




(** ** Failures of the backend *)

(** X14.  However the end-of-race exchange fails, the game is over and the
    race is kept as it was (counters and session); the dialogue shown
    changes only when both the report and the dialogue request went
    through, and a refused report stops the exchange: no dialogue is
    requested after it. *)
Theorem endGame_failure_keeps_the_dialogue
    (net : Backend) (g : Game) (session : GameSession) :
  gameSession g = Some session ->
  let report :=
    UpdateSession (gs_id session) (score g) (distance g) (distance g / 10)
      true in
  let ask :=
    GetDialogue (if 500 <? score g then "victory" else "defeat")
      (js_or (option_map t_name (currentTrack g)) "jamaica_country")
      (js_or (option_map p_name (currentPlayer g)) generalName) in
  let g' := endGame net g in
  (gameState g' = gameOver /\ isRunning g' = false /\
   score g' = score g /\ distance g' = distance g /\
   gameSession g' = Some session) /\
  (updateSession net (report :: sent g) = false ->
   dialogue g' = dialogue g /\ sent g' = report :: sent g) /\
  (updateSession net (report :: sent g) = true ->
   sent g' = ask :: report :: sent g /\
   dialogue g' =
     match getDialogue net (ask :: report :: sent g) with
     | Some d => Some d
     | None => dialogue g
     end).
Proof.
  intros Hs report ask g'. split.
  - destruct (endGame_frame net g) as (E1 & E2 & E3 & E4 & _ & _ & E7 & _).
    fold g' in E1, E2, E3, E4, E7. rewrite E7. auto.
  - subst g'. unfold endGame. rewrite Hs. fields. fold report. split.
    + intros ->. auto.
    + intros ->. fold ask. destruct (getDialogue net _); auto.
Qed.

Lemma endGame_failure_keeps_the_dialogue_witness :
  dialogue (endGame reportFailsNet freshRace) = dialogue freshRace /\
  sent (endGame reportFailsNet freshRace) =
    UpdateSession "s1" 0 0 0 true :: sent freshRace /\
  dialogue (endGame noDialogueNet freshRace) = dialogue freshRace.
Proof.
  destruct (endGame_failure_keeps_the_dialogue reportFailsNet freshRace
              someSession eq_refl) as (_ & Hf & _).
  destruct (endGame_failure_keeps_the_dialogue noDialogueNet freshRace
              someSession eq_refl) as (_ & _ & Hd).
  destruct (Hf eq_refl) as [H1 H2]. destruct (Hd eq_refl) as [_ H3].
  split; [exact H1|]. split; [exact H2 | exact H3].
Defined.

(** X15.  A failure of the last request of [initializeGame], the one for
    the dialogue, mixes fetched and fallback data: the fetched player and
    track list are replaced by the fallback ones, but the track selected
    stays the first fetched one, which need not be a listed track. *)
Theorem late_failure_mixes_fetched_and_fallback
    (net : Backend) (p : Player) (ts : list Track) (g : Game) :
  let l1 := CreatePlayer generalName :: sent g in
  let l2 := ListTracks :: l1 in
  let l3 := GetDialogue "start"
              (js_or (option_map t_name (hd_error ts)) "jamaica_country")
              generalName :: l2 in
  createPlayer net l1 = Some p -> listTracks net l2 = Some ts ->
  getDialogue net l3 = None ->
  let g' := initializeGame net g in
  currentPlayer g' = Some fallbackPlayer /\
  availableTracks g' = [fallbackTrack] /\
  currentTrack g' = hd_error ts /\
  dialogue g' = Some fallbackDialogue /\
  isInitialized g' = true /\ sent g' = l3.
Proof.
  intros l1 l2 l3 Hp Ht Hd. unfold initializeGame. fields.
  fold l1. rewrite Hp. fields. fold l2. rewrite Ht. fields. fold l3.
  rewrite Hd. fields. auto 10.
Qed.

Lemma late_failure_mixes_fetched_and_fallback_witness :
  let g' := initializeGame noDialogueNet mount in
  currentTrack g' = Some kingston /\
  availableTracks g' = [fallbackTrack] /\
  trackSelected g' fallbackTrack = false.
Proof.
  intros g'.
  destruct (late_failure_mixes_fetched_and_fallback noDialogueNet
              (mkPlayer "p1" generalName 0) [kingston; fallbackTrack] mount
              eq_refl eq_refl eq_refl) as (_ & Ha & Hc & _).
  fold g' in Ha, Hc. split; [exact Hc|]. split; [exact Ha|].
  unfold trackSelected. rewrite Hc. reflexivity.
Defined.



